(** * postgres_lib: a facade over a pgx connection pool

    Shallow embedding of [postgres.go] and [private.go].  [postgres.go]
    comes in two revisions; the embedding follows the later one, with
    [DBConfig.MaxConn], [DBConfig.MaxConnTime] and the timing log.

    The package only orchestrates calls into collaborators it does not
    implement: the pgx driver and pool, [encoding/json], the clock and
    the [lg] logging facility.  Every function is therefore embedded as
    a program that issues calls to those collaborators and continues
    with their answers.  Running a program against a driver yields its
    result together with the trace of calls it made; the theorems
    quantify over every driver. *)

From Stdlib Require Import ZArith Ascii String List Lia.
From Stdlib Require Import DecimalString DecimalNat.
From stdpp Require Import gmap strings list fin_maps.

Set Warnings "-register-all".

(** ** Go values *)

(** A value of Go's [any], as far as this package handles one.  A slice
    is itself one value: passing a [[]any] where a single [any] is
    expected yields [VSlice], not its elements. *)
Inductive any : Type :=
| VNil
| VInt (z : Z)
| VString (s : string)
| VBytes (b : string)
| VDuration (d : Z)
| VSlice (l : list any).

(** Go's [error] values.  [ExternErr] is an error produced outside this
    package (driver, [encoding/json]); the other two are what
    [fmt.Errorf] builds here: a plain message, or [context: %w]. *)
Inductive error : Type :=
| ExternErr (msg : string)
| Errorf (msg : string)
| ErrorfW (context : string) (cause : error).

Definition Pool := nat.
Definition Tx := nat.
Definition Time := Z.
Definition Duration := Z.
Definition Row := list any.
Definition Rows := list Row.

(** [pgx.Row]: the deferred outcome of [QueryRow], read by [Scan]. *)
Definition pgxRow : Type := Rows + error.

(** The two row decoders of pgx the package passes around. *)
Inductive RowToFunc := RowTo | RowToStructByName.

Record DBConfig := {
  Host : string;
  Port : string;
  User : string;
  Password : string;
  Db : string;
  SslMode : string;
  MaxConn : Z;
  MaxConnTime : Duration
}.

(** [pgxpool.Config], with the two fields [NewDB] writes. *)
Record Config := {
  ConnString : string;
  MaxConns : Z;
  ConnectTimeout : Duration
}.

(** Go's conversion [int32(x)] of an [int]: keep the low 32 bits, read
    as two's complement. *)
Definition int32 (x : Z) : Z :=
  (x + 2 ^ 31) mod 2 ^ 32 - 2 ^ 31.

(** [len] of a slice.  A length is a non-negative [int] far below
    [2^63], so the sums [len(args)+1], [len(valueArgs)+j+1] computed
    from lengths do not wrap; they are kept in [nat]. *)
Definition len {A} (l : list A) : nat := length l.

(** [%d] of a non-negative [int]. *)
Definition fmt_d (n : nat) : string :=
  NilEmpty.string_of_uint (Nat.to_uint n).

(** [strings.Join]. *)
Fixpoint Join (elems : list string) (sep : string) : string :=
  match elems with
  | [] => ""
  | [s] => s
  | s :: rest => s +:+ sep +:+ Join rest sep
  end.

(** ** Calls to collaborators *)

Section Calls.
Context {T : Type}.

(** A call to a collaborator, indexed by the type of its answer. *)
Inductive Call : Type -> Type :=
| time_Now : Call Time
| time_Since (start : Time) : Call Duration
| lg_Infof (format : string) (args : list any) : Call unit
| json_Marshal (v : gmap string any) : Call (string + error)
| pgxpool_ParseConfig (connString : string) : Call (Config + error)
| pgxpool_NewWithConfig (config : Config) : Call (Pool + error)
| pool_Close (p : Pool) : Call unit
| pool_Query (p : Pool) (sql : string) (args : list any) : Call (Rows + error)
| pool_QueryRow (p : Pool) (sql : string) (args : list any) : Call pgxRow
| pool_Exec (p : Pool) (sql : string) (args : list any) : Call (option error)
| pool_Begin (p : Pool) : Call (Tx + error)
| rows_Close (r : Rows) : Call unit
| row_Scan (r : pgxRow) (dest : T) : Call (T * option error)
| row_ScanJson (r : pgxRow) (dest : gmap string any)
    : Call (gmap string any * option error)
| pgx_CollectRows (r : Rows) (fn : RowToFunc) : Call (list T * option error)
| pgx_CollectOneRow (r : Rows) (fn : RowToFunc) : Call (T * option error)
| tx_Exec (tx : Tx) (sql : string) (args : list any) : Call (option error)
| tx_Rollback (tx : Tx) : Call (option error)
| tx_Commit (tx : Tx) : Call (option error).

(** A program: return, or call a collaborator and continue. *)
Inductive Prog (R : Type) : Type :=
| Ret (r : R)
| Vis {X : Type} (c : Call X) (k : X -> Prog R).

(** One entry of a trace: a call and the answer it got. *)
Inductive Event : Type :=
| Ev {X : Type} (c : Call X) (x : X).
End Calls.

Arguments Call : clear implicits.
Arguments Prog : clear implicits.
Arguments Event : clear implicits.
Arguments Ret {T R} r.
Arguments Vis {T R X} c k.

Fixpoint bind {T A B} (m : Prog T A) (f : A -> Prog T B) : Prog T B :=
  match m with
  | Ret a => f a
  | Vis c k => Vis c (fun x => bind (k x) f)
  end.

Definition call {T X} (c : Call T X) : Prog T X := Vis c Ret.

Notation "'let!' x ':=' m 'in' k" := (bind m (fun x => k))
  (at level 10, x name, m at level 100, k at level 200, only parsing).

(** A driver answers every call from its current state. *)
Record Driver (T W : Type) := {
  answer : forall X, Call T X -> W -> X * W
}.
Arguments answer {T W} d {X} c w.

(** Run a program: its result, the final state, the trace of calls. *)
Fixpoint run {T W R} (d : Driver T W) (p : Prog T R) (w : W)
  : R * W * list (Event T) :=
  match p with
  | Ret r => (r, w, [])
  | Vis c k =>
      let '(x, w1) := answer d c w in
      let '(r, w2, tr) := run d (k x) w1 in
      (r, w2, Ev c x :: tr)
  end.

Definition result {T W R} (d : Driver T W) (p : Prog T R) (w : W) : R :=
  fst (fst (run d p w)).
Definition trace {T W R} (d : Driver T W) (p : Prog T R) (w : W)
  : list (Event T) :=
  snd (run d p w).

(** ** The package *)

Section Facade.
Context {T : Type}.

(** The zero value of [T] ([var t T], [*new(T)]). *)
Variable zeroT : T.

(** The order in which Go's [range] visits a map: unspecified, some
    enumeration of its entries. *)
Variable rangeOrder :
  gmap string (list any) -> list (string * list any).

(** The connection string of [NewDB]:
    [fmt.Sprintf("host=%s port=%s user=%s password=%s dbname=%s sslmode=%s", ...)]. *)
Definition connectionUrl (cfg : DBConfig) : string :=
  "host=" +:+ Host cfg +:+ " port=" +:+ Port cfg +:+
  " user=" +:+ User cfg +:+ " password=" +:+ Password cfg +:+
  " dbname=" +:+ Db cfg +:+ " sslmode=" +:+ SslMode cfg.

(** [NewDB] (postgres.go): a pointer result is [option], and the Go
    pair is kept as a pair. *)
Definition NewDB (cfg : DBConfig) : Prog T (option Pool * option error) :=
  let connectionUrl := connectionUrl cfg in
  let! parsed := call (pgxpool_ParseConfig connectionUrl) in
  match parsed with
  | inr err => Ret (None, Some (ErrorfW "failed to parse config" err))
  | inl config =>
      let config :=
        if negb (MaxConn cfg =? 0)%Z && negb (MaxConnTime cfg =? 0)%Z
        then {| ConnString := ConnString config;
                MaxConns := int32 (MaxConn cfg);
                ConnectTimeout := MaxConnTime cfg |}
        else config in
      let! created := call (pgxpool_NewWithConfig config) in
      match created with
      | inr err =>
          Ret (None, Some (ErrorfW "failed to create connection pool" err))
      | inl pool => Ret (Some pool, None)
      end
  end.

(** [QueryStructs]: the deferred calls run after the result is
    computed, last deferred first. *)
Definition QueryStructs (pool : Pool) (sql : string) (args : list any)
  : Prog T (list T * option error) :=
  let! start := call time_Now in
  let! r := (let! q := call (pool_Query pool sql args) in
        match q with
        | inr err => Ret ([], Some err)
        | inl rows =>
            let! r := call (pgx_CollectRows rows RowToStructByName) in
            let! _ := call (rows_Close rows) in
            Ret r
        end) in
  let! elapsed := call (time_Since start) in
  let! _ := call (lg_Infof "Executed %s in %s" [VString sql; VDuration elapsed]) in
  Ret r.

Definition QuerySimple (pool : Pool) (sql : string) (args : list any)
  : Prog T (list T * option error) :=
  let! start := call time_Now in
  let! r := (let! q := call (pool_Query pool sql args) in
        match q with
        | inr err => Ret ([], Some err)
        | inl rows =>
            let! r := call (pgx_CollectRows rows RowTo) in
            let! _ := call (rows_Close rows) in
            Ret r
        end) in
  let! elapsed := call (time_Since start) in
  let! _ := call (lg_Infof "Executed %s in %s" [VString sql; VDuration elapsed]) in
  Ret r.

Definition QueryOne (pool : Pool) (sql : string) (args : list any)
  : Prog T (T * option error) :=
  let! start := call time_Now in
  let! r := (let t := zeroT in
        let! row := call (pool_QueryRow pool sql args) in
        call (row_Scan row t)) in
  let! elapsed := call (time_Since start) in
  let! _ := call (lg_Infof "Executed %s in %s" [VString sql; VDuration elapsed]) in
  Ret r.

Definition QueryOneStruct (pool : Pool) (sql : string) (args : list any)
  : Prog T (T * option error) :=
  let! start := call time_Now in
  let! r := (let! q := call (pool_Query pool sql args) in
        match q with
        | inr err => Ret (zeroT, Some err)
        | inl rows =>
            let! r := call (pgx_CollectOneRow rows RowToStructByName) in
            let! _ := call (rows_Close rows) in
            Ret r
        end) in
  let! elapsed := call (time_Since start) in
  let! _ := call (lg_Infof "Executed %s in %s" [VString sql; VDuration elapsed]) in
  Ret r.

Definition Exec (pool : Pool) (sql : string) (args : list any)
  : Prog T (option error) :=
  let! start := call time_Now in
  let! err := call (pool_Exec pool sql args) in
  let! elapsed := call (time_Since start) in
  let! _ := call (lg_Infof "Executed %s in %s" [VString sql; VDuration elapsed]) in
  Ret err.

(** [beginTransaction] (private.go). *)
Definition beginTransaction (pool : Pool) : Prog T (Tx + error) :=
  let! b := call (pool_Begin pool) in
  match b with
  | inr err => Ret (inr (ErrorfW "failed to begin transaction" err))
  | inl tx => Ret (inl tx)
  end.

(** The [for k, v := range queryParam] loop of
    [RequestInOneTransaction], over the entries in the order [range]
    yields them.  [Some] is the early [return] of the loop body.  The
    source calls [tx.Exec(ctx, k, v)]: [v], a [[]any], is handed to
    the variadic parameter as ONE argument. *)
Fixpoint execStatements (tx : Tx) (kvs : list (string * list any))
  : Prog T (option error) :=
  match kvs with
  | [] => Ret None
  | (k, v) :: rest =>
      let! err := call (tx_Exec tx k [VSlice v]) in
      match err with
      | Some err =>
          let! _ := call (tx_Rollback tx) in
          Ret (Some (ErrorfW "failed to execute query" err))
      | None => execStatements tx rest
      end
  end.

Definition RequestInOneTransaction (pool : Pool)
    (queryParam : gmap string (list any)) : Prog T (option error) :=
  let! start := call time_Now in
  let! r := (let! b := beginTransaction pool in
        match b with
        | inr err => Ret (Some (ErrorfW "failed to begin transaction" err))
        | inl tx =>
            let! failed := execStatements tx (rangeOrder queryParam) in
            match failed with
            | Some err => Ret (Some err)
            | None =>
                let! err := call (tx_Commit tx) in
                match err with
                | Some err =>
                    Ret (Some (ErrorfW "failed to commit transaction" err))
                | None => Ret None
                end
            end
        end) in
  let! elapsed := call (time_Since start) in
  let! _ := call (lg_Infof "Executed requests is one tx in %s" [VDuration elapsed]) in
  Ret r.

(** The inner loop of [BulkInsert]:
    [placeholders[j] = fmt.Sprintf("$%d", len(valueArgs)+j+1)]. *)
Fixpoint fillPlaceholders (row : list any) (j : nat) (valueArgs : list any)
    (placeholders : list string) : list string :=
  match row with
  | [] => placeholders
  | _ :: rest =>
      fillPlaceholders rest (S j) valueArgs
        (<[j := "$" +:+ fmt_d (len valueArgs + j + 1)]> placeholders)
  end.

(** The outer loop of [BulkInsert], threading [valueStrings] and
    [valueArgs]. *)
Fixpoint bulkLoop (values : list (list any)) (i : nat)
    (valueStrings : list string) (valueArgs : list any)
  : list string * list any :=
  match values with
  | [] => (valueStrings, valueArgs)
  | row :: rest =>
      let placeholders :=
        fillPlaceholders row 0 valueArgs (replicate (len row) "") in
      bulkLoop rest (S i)
        (<[i := "(" +:+ Join placeholders "," +:+ ")"]> valueStrings)
        (valueArgs ++ row)
  end.

Definition BulkInsert (pool : Pool) (tableName : string)
    (columns : list string) (values : list (list any))
  : Prog T (option error) :=
  let! start := call time_Now in
  let! r := (if (len values =? 0)%nat
        then Ret (Some (Errorf "no values provided for insert"))
        else
          let '(valueStrings, valueArgs) :=
            bulkLoop values 0 (replicate (len values) "") [] in
          let query :=
            "INSERT INTO " +:+ tableName +:+ " (" +:+ Join columns "," +:+
            ") VALUES " +:+ Join valueStrings "," in
          let! err := call (pool_Exec pool query valueArgs) in
          match err with
          | Some err => Ret (Some (ErrorfW "bulk insert failed" err))
          | None => Ret None
          end) in
  let! elapsed := call (time_Since start) in
  let! _ := call (lg_Infof "Executed bulk insert to the%s in %s"
             [VString tableName; VDuration elapsed]) in
  Ret r.

Definition QueryJson (pool : Pool) (sql : string) (args : list any)
  : Prog T (gmap string any * option error) :=
  let! start := call time_Now in
  let! r := (let result : gmap string any := ∅ in
        let! row := call (pool_QueryRow pool sql args) in
        call (row_ScanJson row result)) in
  let! elapsed := call (time_Since start) in
  let! _ := call (lg_Infof "Executed %s in %s" [VString sql; VDuration elapsed]) in
  Ret r.

Definition ExecJson (pool : Pool) (sql : string)
    (jsonData : gmap string any) (args : list any) : Prog T (option error) :=
  let! start := call time_Now in
  let! r := (let! m := call (json_Marshal jsonData) in
        match m with
        | inr err => Ret (Some err)
        | inl jsonBytes => call (pool_Exec pool sql (args ++ [VBytes jsonBytes]))
        end) in
  let! elapsed := call (time_Since start) in
  let! _ := call (lg_Infof "Executed %s in %s" [VString sql; VDuration elapsed]) in
  Ret r.

Definition QueryWithPagination (pool : Pool) (sql : string)
    (limit offset : Z) (args : list any) : Prog T (list T * option error) :=
  let! start := call time_Now in
  let! r := (let paginatedSQL :=
          sql +:+ " LIMIT $" +:+ fmt_d (len args + 1) +:+
          " OFFSET $" +:+ fmt_d (len args + 2) in
        let args := args ++ [VInt limit; VInt offset] in
        QuerySimple pool paginatedSQL args) in
  let! elapsed := call (time_Since start) in
  let! _ := call (lg_Infof "Executed %s in %s" [VString sql; VDuration elapsed]) in
  Ret r.

Definition QueryWithCTE (pool : Pool) (cte query : string)
    (args : list any) : Prog T (list T * option error) :=
  let! start := call time_Now in
  let! r := (let sql := "WITH " +:+ cte +:+ " " +:+ query in
        QuerySimple pool sql args) in
  let! elapsed := call (time_Since start) in
  let! _ := call (lg_Infof "Executed CTE query in %s" [VDuration elapsed]) in
  Ret r.

(** [Close]: the pool pointer may be nil. *)
Definition Close (pool : option Pool) : Prog T unit :=
  match pool with
  | Some p => call (pool_Close p)
  | None => Ret tt
  end.
End Facade.

(** ** Reading traces *)

(** The log line of an event, if it is one: format and arguments. *)
Definition log_line_of {T} (e : Event T) : option (string * list any) :=
  match e with
  | Ev c _ =>
      match c with
      | lg_Infof format args => Some (format, args)
      | _ => None
      end
  end.

(** The log lines of a trace, oldest first. *)
Definition log_lines {T} (tr : list (Event T)) : list (string * list any) :=
  omap log_line_of tr.

(** Is this a call into the driver: pool, transaction, rows? *)
Definition is_driver_call {T} (e : Event T) : bool :=
  match e with
  | Ev c _ =>
      match c with
      | time_Now | time_Since _ | lg_Infof _ _ | json_Marshal _ => false
      | _ => true
      end
  end.

Definition driver_calls {T} (tr : list (Event T)) : list (Event T) :=
  List.filter is_driver_call tr.

(** The statement an event hands to the driver, with its arguments. *)
Definition statement_of {T} (e : Event T) : option (string * list any) :=
  match e with
  | Ev c _ =>
      match c with
      | pool_Query _ sql args
      | pool_QueryRow _ sql args
      | pool_Exec _ sql args
      | tx_Exec _ sql args => Some (sql, args)
      | _ => None
      end
  end.

Definition statements {T} (tr : list (Event T)) : list (string * list any) :=
  omap statement_of tr.

(** How often a trace begins, commits, rolls back a transaction. *)
Definition count_calls {T} (f : Event T -> bool) (tr : list (Event T)) : nat :=
  length (List.filter f tr).

Definition is_begin {T} (e : Event T) : bool :=
  match e with Ev c _ => match c with pool_Begin _ => true | _ => false end end.
Definition is_commit {T} (e : Event T) : bool :=
  match e with Ev c _ => match c with tx_Commit _ => true | _ => false end end.
Definition is_rollback {T} (e : Event T) : bool :=
  match e with Ev c _ => match c with tx_Rollback _ => true | _ => false end end.

(** ** Reading a statement back

    The positional placeholders [$n] of a statement text, left to
    right.  This is how the server numbers the parameters it expects;
    it is used to check the texts the package generates. *)

Definition digit_of (c : ascii) : option nat :=
  let n := nat_of_ascii c in
  if (48 <=? n)%nat && (n <=? 57)%nat then Some (n - 48)%nat else None.

Inductive scan_state :=
| Outside                (* not inside a placeholder *)
| Dollar                 (* just read [$] *)
| Number (n : nat).      (* reading the digits of [$n] *)

Definition emit (st : scan_state) : list nat :=
  match st with
  | Number n => [n]
  | _ => []
  end.

Fixpoint scan (st : scan_state) (s : string) : list nat :=
  match s with
  | EmptyString => emit st
  | String c rest =>
      match digit_of c with
      | Some dg =>
          match st with
          | Outside => scan Outside rest
          | Dollar => scan (Number dg) rest
          | Number n => scan (Number (10 * n + dg)) rest
          end
      | None =>
          emit st ++ scan (if Ascii.eqb c "$" then Dollar else Outside) rest
      end
  end.

Definition placeholders (s : string) : list nat := scan Outside s.

(** Row-major numbering of a row set: each row takes the next
    [len row] numbers, starting from [next]. *)
Fixpoint numbering (next : nat) (values : list (list any)) : list (list nat) :=
  match values with
  | [] => []
  | row :: rest => seq next (len row) :: numbering (next + len row) rest
  end.

(** The text of one tuple of a [VALUES] list: [($a,$b,...)]. *)
Definition tupleText (ns : list nat) : string :=
  "(" +:+ Join (map (fun n => "$" +:+ fmt_d n) ns) "," +:+ ")".

(** ** A reference driver

    A small database that answers the way pgx v5 documents its calls.
    It is used to run the package on concrete inputs.  Decoded values
    are [any]: [Scan] and [RowTo] read a one-column row, and
    [RowToStructByName] reads the columns of a row as the fields of a
    struct. *)

Record World := {
  now : Time;
  resultSet : Rows;            (* the rows every query yields *)
  rejected : list string;      (* statements the server rejects *)
  marshalFails : bool;         (* json.Marshal meets an unsupported value *)
  parseFails : bool;
  connectFails : bool
}.

Definition tick (w : World) : World :=
  {| now := (now w + 1)%Z; resultSet := resultSet w; rejected := rejected w;
     marshalFails := marshalFails w; parseFails := parseFails w;
     connectFails := connectFails w |}.

Definition ErrNoRows : error := ExternErr "no rows in result set".

Definition serverRejects (w : World) (sql : string) : bool :=
  bool_decide (sql ∈ rejected w).

(** What pgx answers to a statement before any row is read: it refuses
    a statement whose number of parameters, the highest [$n] of its
    text, differs from the number of arguments ([expected %d
    arguments, got %d]); the server may reject it; otherwise none. *)
Definition statementError (w : World) (sql : string) (args : list any)
  : option error :=
  let expected := list_max (placeholders sql) in
  if negb (expected =? length args)%nat then
    Some (ExternErr ("expected " +:+ fmt_d expected +:+ " arguments, got " +:+
                     fmt_d (length args)))
  else if serverRejects w sql then Some (ExternErr "statement rejected")
  else None.

Definition decodeRow (fn : RowToFunc) (row : Row) : any * option error :=
  match fn, row with
  | RowToStructByName, _ => (VSlice row, None)
  | RowTo, [v] => (v, None)
  | RowTo, _ => (VNil, Some (ExternErr "cannot scan row into one destination"))
  end.

(** [pgx.CollectRows]: decode every row, stop at the first failure. *)
Fixpoint collectRows (fn : RowToFunc) (rows : Rows) : list any * option error :=
  match rows with
  | [] => ([], None)
  | row :: rest =>
      match decodeRow fn row with
      | (_, Some err) => ([], Some err)
      | (v, None) =>
          match collectRows fn rest with
          | (_, Some err) => ([], Some err)
          | (vs, None) => (v :: vs, None)
          end
      end
  end.

(** [pgx.CollectOneRow], as pgx documents it: it calls [fn] for the
    first row in [rows] and returns the result; if no rows are found it
    returns [ErrNoRows].  Rows after the first are discarded (the
    variant that refuses them is [CollectExactlyOneRow], which the
    package does not use). *)
Definition collectOneRow (fn : RowToFunc) (rows : Rows) : any * option error :=
  match rows with
  | [] => (VNil, Some ErrNoRows)
  | row :: _ => decodeRow fn row
  end.

(** [Row.Scan] on the result of [QueryRow], as pgx documents it: if no
    rows were found it returns [ErrNoRows]; if multiple rows are
    returned it ignores all but the first. *)
Definition scanRow (r : pgxRow) (dest : any) : any * option error :=
  match r with
  | inr err => (dest, Some err)
  | inl [] => (dest, Some ErrNoRows)
  | inl (row :: _) =>
      match decodeRow RowTo row with
      | (_, Some err) => (dest, Some err)
      | (v, None) => (v, None)
      end
  end.

Definition pgx_answer (X : Type) (c : Call any X) (w : World) : X * World :=
  match c in Call _ X return X * World with
  | time_Now => (now w, tick w)
  | time_Since start => ((now w - start)%Z, w)
  | lg_Infof _ _ => (tt, w)
  | json_Marshal _ =>
      (if marshalFails w then inr (ExternErr "json: unsupported value")
       else inl "{}", w)
  | pgxpool_ParseConfig s =>
      (if parseFails w then inr (ExternErr "cannot parse connection string")
       else inl {| ConnString := s; MaxConns := 4%Z; ConnectTimeout := 0%Z |}, w)
  | pgxpool_NewWithConfig _ =>
      (if connectFails w then inr (ExternErr "connection refused")
       else inl 1%nat, w)
  | pool_Close _ => (tt, w)
  | pool_Query _ sql args =>
      (match statementError w sql args with
       | Some err => inr err
       | None => inl (resultSet w)
       end, w)
  | pool_QueryRow _ sql args =>
      (match statementError w sql args with
       | Some err => inr err
       | None => inl (resultSet w)
       end, w)
  | pool_Exec _ sql args => (statementError w sql args, w)
  | pool_Begin _ => (inl 1%nat, w)
  | rows_Close _ => (tt, w)
  | row_Scan r dest => (scanRow r dest, w)
  | row_ScanJson r dest =>
      (match r with
       | inr err => (dest, Some err)
       | inl [] => (dest, Some ErrNoRows)
       | inl _ => (dest, None)
       end, w)
  | pgx_CollectRows rows fn => (collectRows fn rows, w)
  | pgx_CollectOneRow rows fn => (collectOneRow fn rows, w)
  | tx_Exec _ sql args => (statementError w sql args, w)
  | tx_Rollback _ => (None, w)
  | tx_Commit _ => (None, w)
  end.

Definition pgx : Driver any World := {| answer := pgx_answer |}.


(** A database holding the given rows, where nothing fails. *)
Definition database (rows : Rows) : World :=
  {| now := 0%Z; resultSet := rows; rejected := []; marshalFails := false;
     parseFails := false; connectFails := false |}.

(** What [tx.Exec(ctx, k, v)] receives for the entry [k, v] of the map:
    the text, and one argument, the slice [v]. *)
Definition asOneArgument (kv : string * list any) : string * list any :=
  (fst kv, [VSlice (snd kv)]).

(** ** The Query Executor as a whole *)

(** A call of one of the seven operations of the Query Executor. *)
Inductive ExecutorCall :=
| CallQueryStructs (sql : string) (args : list any)
| CallQuerySimple (sql : string) (args : list any)
| CallQueryOne (sql : string) (args : list any)
| CallQueryOneStruct (sql : string) (args : list any)
| CallExec (sql : string) (args : list any)
| CallQueryJson (sql : string) (args : list any)
| CallExecJson (sql : string) (jsonData : gmap string any) (args : list any).

(** The SQL text the caller passed. *)
Definition executor_sql (c : ExecutorCall) : string :=
  match c with
  | CallQueryStructs sql _ | CallQuerySimple sql _ | CallQueryOne sql _
  | CallQueryOneStruct sql _ | CallExec sql _ | CallQueryJson sql _
  | CallExecJson sql _ _ => sql
  end.

(** The trace of that call. *)
Definition executor_trace {T W} (zeroT : T) (d : Driver T W) (pool : Pool)
    (c : ExecutorCall) (w : W) : list (Event T) :=
  match c with
  | CallQueryStructs sql args => trace d (QueryStructs pool sql args) w
  | CallQuerySimple sql args => trace d (QuerySimple pool sql args) w
  | CallQueryOne sql args => trace d (QueryOne zeroT pool sql args) w
  | CallQueryOneStruct sql args => trace d (QueryOneStruct zeroT pool sql args) w
  | CallExec sql args => trace d (Exec pool sql args) w
  | CallQueryJson sql args => trace d (QueryJson pool sql args) w
  | CallExecJson sql jsonData args => trace d (ExecJson pool sql jsonData args) w
  end.

(** ** More ways to read a trace *)

Definition is_rows_Close {T} (e : Event T) : bool :=
  match e with Ev c _ => match c with rows_Close _ => true | _ => false end end.

(** Does this call belong to the transaction [tx]?  The clock, the log
    and the [Begin] that opened it do; a call on another transaction or
    directly on the pool does not. *)
Definition within_tx {T} (tx : Tx) (e : Event T) : bool :=
  match e with
  | Ev c _ =>
      match c with
      | tx_Exec t _ _ | tx_Rollback t | tx_Commit t => Nat.eqb t tx
      | pool_Begin _ | time_Now | time_Since _ | lg_Infof _ _ => true
      | _ => false
      end
  end.

(** The configurations a trace creates pools from. *)
Definition config_of {T} (e : Event T) : option Config :=
  match e with
  | Ev c _ =>
      match c with
      | pgxpool_NewWithConfig config => Some config
      | _ => None
      end
  end.

Definition created_configs {T} (tr : list (Event T)) : list Config :=
  omap config_of tr.

(** [cfg] with other [Db] and [SslMode] fields. *)
Definition withDbSsl (cfg : DBConfig) (db sslmode : string) : DBConfig :=
  {| Host := Host cfg; Port := Port cfg; User := User cfg;
     Password := Password cfg; Db := db; SslMode := sslmode;
     MaxConn := MaxConn cfg; MaxConnTime := MaxConnTime cfg |}.

(** What the driver answered to a statement run in a transaction. *)
Definition exec_answer_of {T} (e : Event T) : option (option error) :=
  match e with
  | Ev c x =>
      match c in Call _ X return X -> option (option error) with
      | tx_Exec _ _ _ => fun err => Some err
      | _ => fun _ => None
      end x
  end.

(** The answers to the statements of a trace, oldest first. *)
Definition exec_answers {T} (tr : list (Event T)) : list (option error) :=
  omap exec_answer_of tr.

(** The reference driver with the database down: [pool.Begin] fails,
    everything else answers as before. *)
Definition pgx_down_answer (X : Type) (c : Call any X) (w : World)
  : X * World :=
  match c in Call _ X return X * World -> X * World with
  | pool_Begin _ => fun _ => (inr (ExternErr "connection refused"), w)
  | _ => fun usual => usual
  end (pgx_answer X c w).

Definition pgx_down : Driver any World := {| answer := pgx_down_answer |}.

(** * Properties *)

(** ** Running programs *)

Lemma run_bind {T W A B} (d : Driver T W) (m : Prog T A) (f : A -> Prog T B) w :
  run d (bind m f) w =
  let '(a, w1, tr1) := run d m w in
  let '(b, w2, tr2) := run d (f a) w1 in
  (b, w2, tr1 ++ tr2).
Proof.
  revert w. induction m as [a | X c k IH]; intros w; simpl.
  - destruct (run d (f a) w) as [[b w2] tr2]. reflexivity.
  - destruct (answer d c w) as [x w1]. rewrite IH.
    destruct (run d (k x) w1) as [[a w2] tr1].
    destruct (run d (f a) w2) as [[b w3] tr2]. reflexivity.
Qed.

Lemma run_call {T W X} (d : Driver T W) (c : Call T X) w :
  run d (call c) w = (fst (answer d c w), snd (answer d c w), [Ev c (fst (answer d c w))]).
Proof. simpl. destruct (answer d c w). reflexivity. Qed.

(** Name the answer of the next call whose state is known. *)
Ltac next_answer :=
  match goal with
  | |- context [answer ?d ?c ?w] =>
      is_var w;
      let x := fresh "x" in
      let w' := fresh "w" in
      let E := fresh "E" in
      destruct (answer d c w) as [x w'] eqn:E; cbn [fst snd] in *
  end.

(** Case on an answer the program branches on. *)
Ltac next_branch :=
  match goal with
  | |- context [match ?x with _ => _ end] => is_var x; destruct x
  end.

Ltac run_all :=
  unfold result, trace; cbn;
  repeat (first [next_answer | next_branch]; cbn).

(** The same, leaving the texts of statements folded. *)
Ltac run_folded :=
  unfold result, trace; cbn -[String.append Join];
  repeat (first [next_answer | next_branch]; cbn -[String.append Join]).

(** ** Close *)

(** C9.  [Close] on a nil pool makes no call at all and leaves the
    world as it is (it has no error result to return); on a pool it
    makes exactly one call, the driver's [pool.Close]. *)
Theorem Close_nil_is_noop {T W} (d : Driver T W) (w : W) :
  run d (Close None) w = (tt, w, []) /\
  forall p : Pool,
    run d (Close (Some p)) w =
    (tt, snd (answer d (pool_Close p) w), [Ev (pool_Close p) tt]).
Proof.
  split; [reflexivity |].
  intros p. cbn. destruct (answer d (pool_Close p) w) as [[] w1]. reflexivity.
Qed.

(** ** Texts and placeholders *)

#[local] Arguments String.append !_ _ /.

Lemma append_assoc (a b c : string) : (a +:+ b) +:+ c = a +:+ (b +:+ c).
Proof. induction a as [| x a IH]; cbn; [reflexivity | f_equal; exact IH]. Qed.

Lemma append_empty_r (a : string) : a +:+ "" = a.
Proof. induction a as [| x a IH]; cbn; [reflexivity | f_equal; exact IH]. Qed.

Lemma to_uint_nonnil (n : nat) : Nat.to_uint n <> Decimal.Nil.
Proof.
  rewrite <- (DecimalNat.Unsigned.of_to n) at 1.
  rewrite DecimalNat.Unsigned.to_of. apply DecimalFacts.unorm_nonnil.
Qed.

(** A character that is neither a digit nor [$] ends a placeholder. *)
Lemma scan_app_sep (s : string) (st : scan_state) (c : ascii) (r : string) :
  digit_of c = None -> Ascii.eqb c "$" = false ->
  scan st (s +:+ String c r) = scan st s ++ scan Outside r.
Proof.
  intros Hd Hc. revert st.
  induction s as [| a s IH]; intros st; simpl.
  - now rewrite Hd, Hc.
  - destruct (digit_of a) as [dg |].
    + destruct st; apply IH.
    + rewrite IH. now rewrite app_assoc.
Qed.

(** Reading the digits [fmt_d] printed gives the number back. *)
Lemma scan_digits (d : Decimal.uint) (acc : nat) (rest : string) :
  scan (Number acc) (NilEmpty.string_of_uint d +:+ rest) =
  scan (Number (Nat.of_uint_acc d acc)) rest.
Proof.
  revert acc.
  induction d as [| d IH | d IH | d IH | d IH | d IH | d IH | d IH | d IH
                  | d IH | d IH]; intros acc; [reflexivity | ..];
    simpl; rewrite IH, Nat.tail_mul_spec; do 3 f_equal; lia.
Qed.

Lemma scan_number (n : nat) (rest : string) :
  scan Dollar (fmt_d n +:+ rest) = scan (Number n) rest.
Proof.
  unfold fmt_d.
  rewrite <- (DecimalNat.Unsigned.of_to n) at 2.
  pose proof (to_uint_nonnil n) as Hnil.
  unfold Nat.of_uint.
  destruct (Nat.to_uint n) as [| d | d | d | d | d | d | d | d | d | d];
    [contradiction | ..]; simpl; apply scan_digits.
Qed.

Lemma scan_placeholder (st : scan_state) (n : nat) (rest : string) :
  scan st ("$" +:+ fmt_d n +:+ rest) = emit st ++ scan (Number n) rest.
Proof. simpl. f_equal. apply scan_number. Qed.

(** The clause [QueryWithPagination] appends, read back. *)
Lemma placeholders_limit_offset (a b : nat) :
  placeholders ("LIMIT $" +:+ fmt_d a +:+ " OFFSET $" +:+ fmt_d b) = [a; b].
Proof.
  unfold placeholders. simpl. rewrite scan_number. simpl.
  rewrite <- (append_empty_r (fmt_d b)), scan_number. reflexivity.
Qed.

Lemma append_char (c : ascii) (s : string) : String c "" +:+ s = String c s.
Proof. reflexivity. Qed.

Lemma scan_sep (st : scan_state) (c : ascii) (r : string) :
  digit_of c = None -> Ascii.eqb c "$" = false ->
  scan st (String c r) = emit st ++ scan Outside r.
Proof. intros Hd Hc. simpl. now rewrite Hd, Hc. Qed.

(** The placeholders of a comma-separated list followed by [)]. *)
Lemma scan_join_close (ns : list nat) (rest : string) :
  scan Outside (Join (map (fun n => "$" +:+ fmt_d n) ns) "," +:+ String ")" rest)
  = ns ++ scan Outside rest.
Proof.
  induction ns as [| n [| n' ns] IH].
  - reflexivity.
  - cbn [map Join]. rewrite append_assoc, scan_placeholder.
    rewrite scan_sep by reflexivity. reflexivity.
  - change (Join (map (fun n => "$" +:+ fmt_d n) (n :: n' :: ns)) ",")
      with (("$" +:+ fmt_d n) +:+ "," +:+
            Join (map (fun n => "$" +:+ fmt_d n) (n' :: ns)) ",").
    rewrite !append_assoc, scan_placeholder, append_char.
    rewrite scan_sep by reflexivity.
    rewrite IH. reflexivity.
Qed.

Lemma placeholders_tupleText (ns : list nat) (rest : string) :
  scan Outside (tupleText ns +:+ rest) = ns ++ scan Outside rest.
Proof.
  unfold tupleText. rewrite !append_assoc, !append_char.
  rewrite scan_sep by reflexivity.
  apply scan_join_close.
Qed.

(** Read back, a [VALUES] list shows the numbers it was built from. *)
Lemma placeholders_values (groups : list (list nat)) :
  placeholders (Join (map tupleText groups) ",") = concat groups.
Proof.
  unfold placeholders.
  induction groups as [| g [| g' gs] IH].
  - reflexivity.
  - cbn [map Join concat]. rewrite <- (append_empty_r (tupleText g)).
    rewrite placeholders_tupleText. reflexivity.
  - change (Join (map tupleText (g :: g' :: gs)) ",")
      with (tupleText g +:+ "," +:+ Join (map tupleText (g' :: gs)) ",").
    rewrite placeholders_tupleText, append_char.
    rewrite scan_sep by reflexivity.
    rewrite IH. reflexivity.
Qed.

(** Row-major numbering is contiguous. *)
Lemma concat_numbering (values : list (list any)) (next : nat) :
  concat (numbering next values) = seq next (length (concat values)).
Proof.
  revert next. induction values as [| row rest IH]; intros next; simpl.
  - reflexivity.
  - rewrite IH, length_app, seq_app. reflexivity.
Qed.

Lemma length_numbering (values : list (list any)) (next : nat) :
  map (@length nat) (numbering next values) = map (@length any) values.
Proof.
  revert next. induction values as [| row rest IH]; intros next; simpl.
  - reflexivity.
  - now rewrite IH, length_seq.
Qed.

(** The placeholders of the whole [INSERT] statement. *)
Lemma placeholders_insert (tableName columns tuples : string) :
  placeholders ("INSERT INTO " +:+ tableName +:+ " (" +:+ columns +:+
                ") VALUES " +:+ tuples) =
  placeholders tableName ++ placeholders columns ++ placeholders tuples.
Proof.
  unfold placeholders. simpl.
  rewrite scan_app_sep by reflexivity. f_equal.
  simpl. rewrite scan_app_sep by reflexivity. f_equal.
Qed.

(** ** BulkInsert *)

Lemma map_seq_offset {A} (g : nat -> A) (b a n : nat) :
  map (fun k => g (b + k)) (seq a n) = map g (seq (b + a) n).
Proof.
  revert a. induction n as [| n IH]; intros a; simpl; [reflexivity |].
  f_equal. rewrite IH. now replace (b + S a) with (S (b + a)) by lia.
Qed.

(** The inner loop fills slot [j], [j+1], ... of [placeholders]. *)
Lemma fillPlaceholders_spec (row : list any) (valueArgs : list any)
    (filled : list string) :
  fillPlaceholders row (length filled) valueArgs
    (filled ++ replicate (len row) "") =
  filled ++
  map (fun k => "$" +:+ fmt_d (len valueArgs + k + 1))
      (seq (length filled) (len row)).
Proof.
  revert filled. induction row as [| v row IH]; intros filled; simpl.
  - reflexivity.
  - rewrite insert_app_r_alt by lia. rewrite Nat.sub_diag. simpl.
    specialize (IH (filled ++ ["$" +:+ fmt_d (len valueArgs + length filled + 1)])).
    rewrite length_app in IH. simpl in IH.
    rewrite Nat.add_1_r in IH. rewrite <- app_assoc in IH. simpl in IH.
    unfold len in *. rewrite IH, <- app_assoc. reflexivity.
Qed.

Lemma rowPlaceholders_numbers (row : list any) (valueArgs : list any) :
  fillPlaceholders row 0 valueArgs (replicate (len row) "") =
  map (fun n => "$" +:+ fmt_d n) (seq (len valueArgs + 1) (len row)).
Proof.
  pose proof (fillPlaceholders_spec row valueArgs []) as H. simpl in H.
  rewrite H.
  transitivity
    (map (fun k => (fun n => "$" +:+ fmt_d n) (len valueArgs + 1 + k))
         (seq 0 (len row))).
  - apply map_ext. intros k. do 2 f_equal. lia.
  - pose proof (map_seq_offset (fun n => "$" +:+ fmt_d n)
                  (len valueArgs + 1) 0 (len row)) as E.
    rewrite Nat.add_0_r in E. exact E.
Qed.

(** The outer loop fills slot [i], [i+1], ... of [valueStrings] with the
    tuples of the row-major numbering, and flattens the rows. *)
Lemma bulkLoop_spec (values : list (list any)) (filled : list string)
    (valueArgs : list any) :
  bulkLoop values (length filled) (filled ++ replicate (len values) "") valueArgs =
  (filled ++ map tupleText (numbering (len valueArgs + 1) values),
   valueArgs ++ concat values).
Proof.
  revert filled valueArgs.
  induction values as [| row rest IH]; intros filled valueArgs.
  - simpl. now rewrite !app_nil_r.
  - cbn [bulkLoop numbering map concat len length replicate].
    rewrite rowPlaceholders_numbers.
    rewrite insert_app_r_alt by lia. rewrite Nat.sub_diag. cbn [insert list_insert].
    fold (tupleText (seq (len valueArgs + 1) (len row))).
    specialize (IH (filled ++ [tupleText (seq (len valueArgs + 1) (len row))])
                   (valueArgs ++ row)).
    rewrite length_app in IH. cbn [length] in IH.
    rewrite Nat.add_1_r, <- !app_assoc in IH. cbn [app] in IH.
    unfold len in *. rewrite IH. rewrite length_app.
    now replace (length valueArgs + length row + 1)
      with (length valueArgs + 1 + length row) by lia.
Qed.

Lemma bulkLoop_start (values : list (list any)) :
  bulkLoop values 0 (replicate (len values) "") [] =
  (map tupleText (numbering 1 values), concat values).
Proof. exact (bulkLoop_spec values [] []). Qed.

(** C3.  For a non-empty row set [BulkInsert] sends exactly one
    statement.  Its text is the [INSERT INTO ... VALUES] head followed
    by one tuple per row; the tuples are those of the row-major
    numbering, which is contiguous from [$1]; read back, the
    placeholders of the tuples are [$1 .. $n] in this order, where [n]
    is the number of arguments, and they are all the placeholders of
    the statement apart from any the table and column names bring; and
    the argument list is the row-major flattening of the rows. *)
Theorem BulkInsert_placeholders_match_arguments {T W} (d : Driver T W) (w : W)
    (pool : Pool) (tableName : string) (columns : list string)
    (values : list (list any)) :
  values <> [] ->
  exists (start : Time) (elapsed : Duration) (err : option error)
         (query tuples : string),
    trace d (BulkInsert pool tableName columns values) w =
      [Ev time_Now start;
       Ev (pool_Exec pool query (concat values)) err;
       Ev (time_Since start) elapsed;
       Ev (lg_Infof "Executed bulk insert to the%s in %s"
             [VString tableName; VDuration elapsed]) tt] /\
    result d (BulkInsert pool tableName columns values) w =
      option_map (ErrorfW "bulk insert failed") err /\
    query = "INSERT INTO " +:+ tableName +:+ " (" +:+ Join columns "," +:+
            ") VALUES " +:+ tuples /\
    tuples = Join (map tupleText (numbering 1 values)) "," /\
    concat (numbering 1 values) = seq 1 (length (concat values)) /\
    map (@length nat) (numbering 1 values) = map (@length any) values /\
    placeholders tuples = seq 1 (length (concat values)) /\
    placeholders query =
      placeholders tableName ++ placeholders (Join columns ",") ++
      seq 1 (length (concat values)).
Proof.
  intros Hne. unfold trace, result, BulkInsert.
  assert (Hlen : (len values =? 0)%nat = false)
    by (destruct values; [contradiction | reflexivity]).
  rewrite Hlen, bulkLoop_start.
  run_folded;
    match goal with u : unit |- _ => destruct u end;
    eexists _, _, _, _, _; do 4 (split; [reflexivity |]);
    rewrite placeholders_insert, placeholders_values, concat_numbering,
      length_numbering;
    repeat split; reflexivity.
Qed.

(** The example of the specification: two columns, two rows. *)
Lemma BulkInsert_placeholders_witness :
  [[VInt 1; VInt 2]; [VInt 3; VInt 4]] <> [] /\
  exists (start : Time) (elapsed : Duration) (err : option error)
         (query tuples : string),
    trace pgx (BulkInsert 0%nat "t" ["a"; "b"]
                 [[VInt 1; VInt 2]; [VInt 3; VInt 4]]) (database []) =
      [Ev time_Now start;
       Ev (pool_Exec 0%nat query (concat [[VInt 1; VInt 2]; [VInt 3; VInt 4]]))
          err;
       Ev (time_Since start) elapsed;
       Ev (lg_Infof "Executed bulk insert to the%s in %s"
             [VString "t"; VDuration elapsed]) tt] /\
    result pgx (BulkInsert 0%nat "t" ["a"; "b"]
                  [[VInt 1; VInt 2]; [VInt 3; VInt 4]]) (database []) =
      option_map (ErrorfW "bulk insert failed") err /\
    query = "INSERT INTO " +:+ "t" +:+ " (" +:+ Join ["a"; "b"] "," +:+
            ") VALUES " +:+ tuples /\
    tuples =
      Join (map tupleText (numbering 1 [[VInt 1; VInt 2]; [VInt 3; VInt 4]])) "," /\
    concat (numbering 1 [[VInt 1; VInt 2]; [VInt 3; VInt 4]]) =
      seq 1 (length (concat [[VInt 1; VInt 2]; [VInt 3; VInt 4]])) /\
    map (@length nat) (numbering 1 [[VInt 1; VInt 2]; [VInt 3; VInt 4]]) =
      map (@length any) [[VInt 1; VInt 2]; [VInt 3; VInt 4]] /\
    placeholders tuples =
      seq 1 (length (concat [[VInt 1; VInt 2]; [VInt 3; VInt 4]])) /\
    placeholders query =
      placeholders "t" ++ placeholders (Join ["a"; "b"] ",") ++
      seq 1 (length (concat [[VInt 1; VInt 2]; [VInt 3; VInt 4]])).
Proof.
  split; [discriminate |].
  apply (BulkInsert_placeholders_match_arguments pgx); discriminate.
Defined.

(** The statement of that example, evaluated. *)
Example BulkInsert_two_rows :
  statements (trace pgx (BulkInsert 0%nat "t" ["a"; "b"]
                           [[VInt 1; VInt 2]; [VInt 3; VInt 4]]) (database []))
  = [("INSERT INTO t (a,b) VALUES ($1,$2),($3,$4)",
      [VInt 1; VInt 2; VInt 3; VInt 4])].
Proof. reflexivity. Qed.

(** C6.  With an empty row set [BulkInsert] returns the plain error
    [no values provided for insert]; the only calls it makes are the
    clock and the log line: no call reaches the driver, so no statement
    is sent. *)
Theorem BulkInsert_empty_fails_without_statement {T W} (d : Driver T W) (w : W)
    (pool : Pool) (tableName : string) (columns : list string) :
  result d (BulkInsert pool tableName columns []) w =
    Some (Errorf "no values provided for insert") /\
  driver_calls (trace d (BulkInsert pool tableName columns []) w) = [] /\
  statements (trace d (BulkInsert pool tableName columns []) w) = [] /\
  exists (start : Time) (elapsed : Duration),
    trace d (BulkInsert pool tableName columns []) w =
      [Ev time_Now start;
       Ev (time_Since start) elapsed;
       Ev (lg_Infof "Executed bulk insert to the%s in %s"
             [VString tableName; VDuration elapsed]) tt].
Proof.
  run_folded. match goal with u : unit |- _ => destruct u end.
  repeat split; eauto.
Qed.

(** ** The scalar query path and its wrappers *)

Lemma statements_app {T} (tr1 tr2 : list (Event T)) :
  statements (tr1 ++ tr2) = statements tr1 ++ statements tr2.
Proof. apply omap_app. Qed.

(** [QuerySimple] hands the driver exactly its own text and arguments. *)
Lemma QuerySimple_statements {T W} (d : Driver T W) (w : W)
    (pool : Pool) (sql : string) (args : list any) :
  statements (trace d (QuerySimple pool sql args) w) = [(sql, args)].
Proof. run_folded; reflexivity. Qed.

(** C8.  [QueryWithCTE] reads the clock, runs [QuerySimple] on the text
    [WITH <cte> <query>] with the caller's arguments, and logs; its
    result is that of [QuerySimple], and the one statement the driver
    receives is that text with those arguments. *)
Theorem QueryWithCTE_prefixes_and_delegates {T W} (d : Driver T W) (w : W)
    (pool : Pool) (cte query : string) (args : list any) :
  exists (start : Time) (w1 : W) (elapsed : Duration),
    answer d time_Now w = (start, w1) /\
    result d (QueryWithCTE pool cte query args) w =
      result d (QuerySimple pool ("WITH " +:+ cte +:+ " " +:+ query) args) w1 /\
    trace d (QueryWithCTE pool cte query args) w =
      Ev time_Now start ::
      trace d (QuerySimple pool ("WITH " +:+ cte +:+ " " +:+ query) args) w1 ++
      [Ev (time_Since start) elapsed;
       Ev (lg_Infof "Executed CTE query in %s" [VDuration elapsed]) tt] /\
    statements (trace d (QueryWithCTE pool cte query args) w) =
      [("WITH " +:+ cte +:+ " " +:+ query, args)].
Proof.
  destruct (answer d time_Now w) as [start w1] eqn:Enow.
  exists start, w1.
  pose proof (QuerySimple_statements d w1 pool
                ("WITH " +:+ cte +:+ " " +:+ query) args) as Hst.
  unfold result, trace, QueryWithCTE in *.
  cbn -[QuerySimple String.append statements]. rewrite Enow, run_bind.
  destruct (run d (QuerySimple pool ("WITH " +:+ cte +:+ " " +:+ query) args) w1)
    as [[r w2] inner].
  cbn -[String.append statements] in *.
  destruct (answer d (time_Since start) w2) as [elapsed w3].
  cbn -[String.append statements].
  destruct (answer d (lg_Infof "Executed CTE query in %s" [VDuration elapsed]) w3)
    as [[] w4].
  exists elapsed. cbn -[String.append statements].
  repeat split.
  match goal with
  | |- statements (?e :: ?tr ++ ?l) = ?r =>
      change (statements ([e] ++ tr ++ l) = r)
  end.
  rewrite !statements_app, Hst. reflexivity.
Qed.

(** C4.  [QueryWithPagination] reads the clock, runs [QuerySimple] on
    the caller's text followed by [ LIMIT $a OFFSET $b], where [a] and
    [b] are [len(args)+1] and [len(args)+2], with the caller's
    arguments followed by exactly two more, limit then offset; its
    result is that of [QuerySimple], and this is the one statement the
    driver receives.  Read back, the rewritten text has the
    placeholders of the caller's text followed by [$a] and [$b]. *)
Theorem QueryWithPagination_appends_and_delegates {T W} (d : Driver T W) (w : W)
    (pool : Pool) (sql : string) (limit offset : Z) (args : list any) :
  let paginatedSQL :=
    sql +:+ " LIMIT $" +:+ fmt_d (length args + 1) +:+
    " OFFSET $" +:+ fmt_d (length args + 2) in
  let args' := args ++ [VInt limit; VInt offset] in
  length args' = length args + 2 /\
  placeholders paginatedSQL =
    placeholders sql ++ [length args + 1; length args + 2] /\
  exists (start : Time) (w1 : W) (elapsed : Duration),
    answer d time_Now w = (start, w1) /\
    result d (QueryWithPagination pool sql limit offset args) w =
      result d (QuerySimple pool paginatedSQL args') w1 /\
    trace d (QueryWithPagination pool sql limit offset args) w =
      Ev time_Now start ::
      trace d (QuerySimple pool paginatedSQL args') w1 ++
      [Ev (time_Since start) elapsed;
       Ev (lg_Infof "Executed %s in %s" [VString sql; VDuration elapsed]) tt] /\
    statements (trace d (QueryWithPagination pool sql limit offset args) w) =
      [(paginatedSQL, args')].
Proof.
  intros paginatedSQL args'. split; [| split].
  - unfold args'. rewrite length_app. reflexivity.
  - unfold placeholders, paginatedSQL.
    change (" LIMIT $" +:+ ?r) with (String " " ("LIMIT $" +:+ r)).
    rewrite scan_app_sep by reflexivity.
    f_equal. apply placeholders_limit_offset.
  - destruct (answer d time_Now w) as [start w1] eqn:Enow.
    exists start, w1.
    pose proof (QuerySimple_statements d w1 pool paginatedSQL args') as Hst.
    unfold result, trace, QueryWithPagination, len in *.
    cbn -[QuerySimple String.append statements]. rewrite Enow, run_bind.
    fold paginatedSQL. fold args'.
    destruct (run d (QuerySimple pool paginatedSQL args') w1)
      as [[r w2] inner].
    cbn -[String.append statements] in *.
    destruct (answer d (time_Since start) w2) as [elapsed w3].
    cbn -[String.append statements].
    destruct (answer d (lg_Infof "Executed %s in %s"
                          [VString sql; VDuration elapsed]) w3) as [[] w4].
    exists elapsed. cbn -[String.append statements].
    repeat split.
    match goal with
    | |- statements (?e :: ?tr ++ ?l) = ?r =>
        change (statements ([e] ++ tr ++ l) = r)
    end.
    rewrite !statements_app, Hst. reflexivity.
Qed.

Example QueryWithPagination_one_argument :
  statements (trace pgx (QueryWithPagination 0%nat "SELECT x FROM t WHERE y = $1"
                           10 20 [VInt 5]) (database []))
  = [("SELECT x FROM t WHERE y = $1 LIMIT $2 OFFSET $3",
      [VInt 5; VInt 10; VInt 20])].
Proof. reflexivity. Qed.

(** ** ExecJson *)

(** C10.  [ExecJson] marshals first.  When [json.Marshal] fails it
    returns that error as it is and no call reaches the driver; when it
    succeeds the driver receives exactly one statement, the caller's
    text with the caller's arguments followed by the marshaled bytes,
    and the result is what [pool.Exec] answered. *)
Theorem ExecJson_marshals_before_executing {T W} (d : Driver T W) (w : W)
    (pool : Pool) (sql : string) (jsonData : gmap string any)
    (args : list any) :
  exists (start : Time) (w1 : W) (marshaled : string + error) (w2 : W),
    answer d time_Now w = (start, w1) /\
    answer d (json_Marshal jsonData) w1 = (marshaled, w2) /\
    match marshaled with
    | inr err =>
        result d (ExecJson pool sql jsonData args) w = Some err /\
        driver_calls (trace d (ExecJson pool sql jsonData args) w) = [] /\
        statements (trace d (ExecJson pool sql jsonData args) w) = []
    | inl jsonBytes =>
        result d (ExecJson pool sql jsonData args) w =
          fst (answer d (pool_Exec pool sql (args ++ [VBytes jsonBytes])) w2) /\
        driver_calls (trace d (ExecJson pool sql jsonData args) w) =
          [Ev (pool_Exec pool sql (args ++ [VBytes jsonBytes]))
              (fst (answer d (pool_Exec pool sql (args ++ [VBytes jsonBytes])) w2))] /\
        statements (trace d (ExecJson pool sql jsonData args) w) =
          [(sql, args ++ [VBytes jsonBytes])]
    end.
Proof.
  destruct (answer d time_Now w) as [start w1] eqn:Enow.
  destruct (answer d (json_Marshal jsonData) w1) as [marshaled w2] eqn:Emar.
  exists start, w1, marshaled, w2.
  do 2 (split; [first [reflexivity | assumption] |]).
  unfold result, trace, ExecJson. cbn. rewrite Enow. cbn. rewrite Emar.
  destruct marshaled as [jsonBytes | err]; cbn;
    repeat (next_answer; cbn); repeat split; reflexivity.
Qed.

(** ** NewDB *)




(** ** Logging *)




Example QueryWithPagination_log :
  log_lines (trace pgx (QueryWithPagination 0%nat "SELECT x FROM t"
                          10 20 []) (database []))
  = [("Executed %s in %s",
      [VString "SELECT x FROM t LIMIT $1 OFFSET $2"; VDuration 1]);
     ("Executed %s in %s", [VString "SELECT x FROM t"; VDuration 2])].
Proof. reflexivity. Qed.

Example QueryWithCTE_log :
  log_lines (trace pgx (QueryWithCTE 0%nat "c AS (SELECT 1)" "SELECT * FROM c"
                          []) (database []))
  = [("Executed %s in %s",
      [VString "WITH c AS (SELECT 1) SELECT * FROM c"; VDuration 1]);
     ("Executed CTE query in %s", [VDuration 2])].
Proof. reflexivity. Qed.

(** ** Single-row queries *)

(** C2, as the code has it.  [QueryOne] and [QueryOneStruct] count no
    rows themselves: [QueryOne] returns what the driver's [Row.Scan]
    answers, and [QueryOneStruct] returns the error of [pool.Query] or
    else what [pgx.CollectOneRow] answers.  On the reference driver
    both fail with [ErrNoRows] when the query yields no row; when it
    yields one row or more they decode the first row and ignore the
    rest, so a result of several rows is not an error. *)
Theorem QueryOne_reads_first_row :
  (forall (T W : Type) (zeroT : T) (d : Driver T W) (w : W)
          (pool : Pool) (sql : string) (args : list any),
     exists (start : Time) (w1 : W),
       answer d time_Now w = (start, w1) /\
       (exists (row : pgxRow) (w2 : W),
          answer d (pool_QueryRow pool sql args) w1 = (row, w2) /\
          result d (QueryOne zeroT pool sql args) w =
            fst (answer d (row_Scan row zeroT) w2)) /\
       (exists (q : Rows + error) (w2 : W),
          answer d (pool_Query pool sql args) w1 = (q, w2) /\
          result d (QueryOneStruct zeroT pool sql args) w =
            match q with
            | inr err => (zeroT, Some err)
            | inl rows =>
                fst (answer d (pgx_CollectOneRow rows RowToStructByName) w2)
            end)) /\
  (forall (w : World) (pool : Pool) (sql : string) (args : list any),
     statementError w sql args = None ->
     match resultSet w with
     | [] =>
         snd (result pgx (QueryOne VNil pool sql args) w) = Some ErrNoRows /\
         snd (result pgx (QueryOneStruct VNil pool sql args) w) = Some ErrNoRows
     | row :: more =>
         result pgx (QueryOne VNil pool sql args) w = scanRow (inl [row]) VNil /\
         (forall v : any, row = [v] ->
            result pgx (QueryOne VNil pool sql args) w = (v, None)) /\
         result pgx (QueryOneStruct VNil pool sql args) w = (VSlice row, None)
     end).
Proof.
  split.
  - intros T W zeroT d w pool sql args.
    destruct (answer d time_Now w) as [start w1] eqn:Enow.
    exists start, w1. split; [reflexivity |]. split.
    + destruct (answer d (pool_QueryRow pool sql args) w1) as [row w2] eqn:Erow.
      exists row, w2. split; [reflexivity |].
      unfold result, QueryOne. cbn. rewrite Enow. cbn. rewrite Erow.
      cbn. repeat (next_answer; cbn). reflexivity.
    + destruct (answer d (pool_Query pool sql args) w1) as [q w2] eqn:Eq.
      exists q, w2. split; [reflexivity |].
      unfold result, QueryOneStruct. cbn. rewrite Enow. cbn. rewrite Eq.
      destruct q as [rows | err]; cbn; repeat (next_answer; cbn); reflexivity.
  - intros w pool sql args Hok.
    unfold result, QueryOne, QueryOneStruct. cbn.
    change (statementError (tick w) sql args) with (statementError w sql args).
    rewrite Hok. cbn.
    destruct (resultSet w) as [| row more]; cbn.
    + split; reflexivity.
    + split; [| split].
      * destruct row as [| v [| v' row]]; reflexivity.
      * intros v ->. reflexivity.
      * reflexivity.
Qed.

Lemma QueryOne_reads_first_row_witness :
  statementError (database [[VInt 1]; [VInt 2]]) "SELECT id FROM t" [] = None /\
  result pgx (QueryOne VNil 0%nat "SELECT id FROM t" [])
    (database [[VInt 1]; [VInt 2]]) = (VInt 1, None) /\
  result pgx (QueryOneStruct VNil 0%nat "SELECT id FROM t" [])
    (database [[VInt 1]; [VInt 2]]) = (VSlice [VInt 1], None).
Proof.
  split; [reflexivity |].
  pose proof (proj2 QueryOne_reads_first_row
                (database [[VInt 1]; [VInt 2]]) 0%nat "SELECT id FROM t" []
                eq_refl) as H.
  cbn in H. destruct H as (_ & H1 & H2).
  split; [exact (H1 (VInt 1) eq_refl) | exact H2].
Defined.

(** C2 as stated fails on a query that yields two rows: no error. *)
Lemma QueryOne_two_rows_no_error :
  length (resultSet (database [[VInt 1]; [VInt 2]])) = 2 /\
  snd (result pgx (QueryOne VNil 0%nat "SELECT id FROM t" [])
         (database [[VInt 1]; [VInt 2]])) = None /\
  snd (result pgx (QueryOneStruct VNil 0%nat "SELECT id FROM t" [])
         (database [[VInt 1]; [VInt 2]])) = None.
Proof. repeat split. Qed.

(** ** Statements in one transaction *)

(** The loop: statements are executed in the order given, up to and
    including the first that fails; a failure rolls back once; the loop
    neither begins nor commits. *)
Lemma execStatements_protocol {T W} (d : Driver T W) (tx : Tx)
    (kvs : list (string * list any)) (w : W) :
  exists ran rest : list (string * list any),
    kvs = ran ++ rest /\
    statements (trace d (execStatements tx kvs) w) = map asOneArgument ran /\
    count_calls is_begin (trace d (execStatements tx kvs) w) = 0 /\
    count_calls is_commit (trace d (execStatements tx kvs) w) = 0 /\
    match result d (execStatements tx kvs) w with
    | None =>
        rest = [] /\
        count_calls is_rollback (trace d (execStatements tx kvs) w) = 0
    | Some err =>
        ran <> [] /\
        (exists cause, err = ErrorfW "failed to execute query" cause) /\
        count_calls is_rollback (trace d (execStatements tx kvs) w) = 1
    end.
Proof.
  revert w. induction kvs as [| [k v] kvs IH]; intros w.
  - exists [], []. cbn. repeat split.
  - unfold result, trace in *. cbn. next_answer.
    destruct x as [err |].
    + cbn. next_answer. exists [(k, v)], kvs. cbn.
      repeat split; [discriminate | eauto].
    + destruct (IH w0) as (ran & rest & Hkvs & Hst & Hb & Hc & Hres).
      destruct (run d (execStatements tx kvs) w0) as [[r w1] tr].
      cbn in *. exists ((k, v) :: ran), rest. subst kvs.
      repeat split; try assumption.
      * unfold statements in *. cbn. now rewrite Hst.
      * destruct r as [err |].
        -- destruct Hres as (Hran & Hcause & Hrb).
           repeat split; [discriminate | assumption | assumption].
        -- assumption.
Qed.

Lemma count_calls_app {T} (f : Event T -> bool) (tr1 tr2 : list (Event T)) :
  count_calls f (tr1 ++ tr2) = count_calls f tr1 + count_calls f tr2.
Proof. unfold count_calls. now rewrite List.filter_app, length_app. Qed.

Lemma count_calls_cons {T} (f : Event T -> bool) (e : Event T)
    (tr : list (Event T)) :
  count_calls f (e :: tr) = (if f e then 1 else 0) + count_calls f tr.
Proof. unfold count_calls. cbn. now destruct (f e). Qed.

Lemma count_calls_nil {T} (f : Event T -> bool) : count_calls f [] = 0.
Proof. reflexivity. Qed.

Lemma statements_cons {T} (e : Event T) (tr : list (Event T)) :
  statements (e :: tr) =
  match statement_of e with
  | Some s => s :: statements tr
  | None => statements tr
  end.
Proof. reflexivity. Qed.

(** Count the calls of a trace built from known events and [inner]. *)
Ltac count_trace :=
  repeat first [rewrite count_calls_app | rewrite count_calls_cons
               | rewrite count_calls_nil | rewrite statements_app
               | rewrite statements_cons
               | change (@statements ?T []) with (@nil (string * list any)) ];
  cbn [is_begin is_commit is_rollback statement_of].

(** The whole helper, on every driver and for every order of the map:
    one transaction is begun; the statements executed are a prefix of
    the entries in [range] order, each passed by [asOneArgument]; the
    result tells which of begin, a statement, or commit failed, and
    commit and rollback exclude each other. *)
Lemma RequestInOneTransaction_protocol {T W} (d : Driver T W) (w : W)
    (rangeOrder : gmap string (list any) -> list (string * list any))
    (pool : Pool) (queryParam : gmap string (list any)) :
  let tr := trace d (RequestInOneTransaction rangeOrder pool queryParam) w in
  count_calls is_begin tr = 1 /\
  exists ran rest : list (string * list any),
    rangeOrder queryParam = ran ++ rest /\
    statements tr = map asOneArgument ran /\
    match result d (RequestInOneTransaction rangeOrder pool queryParam) w with
    | None =>
        rest = [] /\ count_calls is_commit tr = 1 /\
        count_calls is_rollback tr = 0
    | Some err =>
        (exists cause,
           err = ErrorfW "failed to begin transaction"
                   (ErrorfW "failed to begin transaction" cause) /\
           ran = [] /\ count_calls is_commit tr = 0 /\
           count_calls is_rollback tr = 0) \/
        (exists cause,
           err = ErrorfW "failed to execute query" cause /\
           ran <> [] /\ count_calls is_commit tr = 0 /\
           count_calls is_rollback tr = 1) \/
        (exists cause,
           err = ErrorfW "failed to commit transaction" cause /\
           rest = [] /\ count_calls is_commit tr = 1 /\
           count_calls is_rollback tr = 0)
    end.
Proof.
  intros tr. subst tr.
  unfold result, trace, RequestInOneTransaction, beginTransaction.
  cbn -[execStatements]. next_answer. next_answer.
  destruct x0 as [tx | cause]; cbn -[execStatements].
  - rewrite !run_bind.
    destruct (execStatements_protocol d tx (rangeOrder queryParam) w1)
      as (ran & rest & Hkvs & Hst & Hb & Hc & Hres).
    unfold result, trace in *.
    destruct (run d (execStatements tx (rangeOrder queryParam)) w1)
      as [[failed w2] inner].
    cbn -[execStatements count_calls statements] in *.
    destruct failed as [err |]; cbn -[count_calls statements];
      repeat (first [next_answer | next_branch]; cbn -[count_calls statements]).
    all: split; [count_trace; lia |].
    all: exists ran, rest; split; [assumption |].
    all: split;
      [count_trace; rewrite Hst; cbn; rewrite ?app_nil_r; reflexivity |].
    + destruct Hres as (Hran & [cause ->] & Hrb).
      right; left. exists cause.
      repeat split; try assumption; count_trace; lia.
    + destruct Hres as [-> Hrb].
      right; right. exists e. repeat split; count_trace; lia.
    + destruct Hres as [-> Hrb]. repeat split; count_trace; lia.
  - repeat (first [next_answer | next_branch]; cbn -[count_calls statements]).
    split; [count_trace; lia |].
    exists [], (rangeOrder queryParam). repeat split.
    left. exists cause. repeat split; count_trace; lia.
Qed.


(** C1, at one statement with two arguments.  The map
    [{"INSERT INTO t(a,b) VALUES ($1,$2)": [1, 2]}] makes the helper
    begin one transaction and call [tx.Exec] with ONE argument, the
    slice [[1, 2]], not with the two arguments [1] and [2]; the
    reference driver refuses the call ([expected 2 arguments, got 1]),
    so the transaction is rolled back and the wrapped error returned,
    without a commit. *)
Theorem RequestInOneTransaction_passes_slice_as_one_argument :
  run pgx (RequestInOneTransaction map_to_list 0%nat
             {[ "INSERT INTO t(a,b) VALUES ($1,$2)" := [VInt 1; VInt 2] ]})
    (database []) =
  (Some (ErrorfW "failed to execute query"
           (ExternErr "expected 2 arguments, got 1")),
   tick (database []),
   [Ev time_Now 0%Z;
    Ev (pool_Begin 0%nat) (inl 1%nat);
    Ev (tx_Exec 1%nat "INSERT INTO t(a,b) VALUES ($1,$2)"
          [VSlice [VInt 1; VInt 2]])
       (Some (ExternErr "expected 2 arguments, got 1"));
    Ev (tx_Rollback 1%nat) None;
    Ev (time_Since 0%Z) 1%Z;
    Ev (lg_Infof "Executed requests is one tx in %s" [VDuration 1]) tt]).
Proof. vm_compute. reflexivity. Qed.

(** What the sibling paths do: [Exec] spreads its arguments, and the
    same statement with the same two arguments is accepted. *)
Example Exec_spreads_arguments :
  run pgx (Exec 0%nat "INSERT INTO t(a,b) VALUES ($1,$2)" [VInt 1; VInt 2])
    (database []) =
  (None, tick (database []),
   [Ev time_Now 0%Z;
    Ev (pool_Exec 0%nat "INSERT INTO t(a,b) VALUES ($1,$2)" [VInt 1; VInt 2])
       None;
    Ev (time_Since 0%Z) 1%Z;
    Ev (lg_Infof "Executed %s in %s"
          [VString "INSERT INTO t(a,b) VALUES ($1,$2)"; VDuration 1]) tt]).
Proof. vm_compute. reflexivity. Qed.

(** * Further properties *)

(** ** The transaction helper *)

(** X1.  On every driver and for every order of the map,
    [RequestInOneTransaction] begins exactly one transaction and ends
    it at most once, by commit or by rollback, never both; it executes
    no more statements than the map has entries; when it returns no
    error it has committed and has executed every entry in [range]
    order; when it has rolled back, the error returned is the wrapped
    error of a statement; and unless it has committed it returns an
    error. *)
Theorem RequestInOneTransaction_commit_or_rollback {T W} (d : Driver T W)
    (w : W) (rangeOrder : gmap string (list any) -> list (string * list any))
    (pool : Pool) (queryParam : gmap string (list any)) :
  count_calls is_begin
    (trace d (RequestInOneTransaction rangeOrder pool queryParam) w) = 1 /\
  count_calls is_commit
    (trace d (RequestInOneTransaction rangeOrder pool queryParam) w) +
  count_calls is_rollback
    (trace d (RequestInOneTransaction rangeOrder pool queryParam) w) <= 1 /\
  length (statements
            (trace d (RequestInOneTransaction rangeOrder pool queryParam) w))
    <= length (rangeOrder queryParam) /\
  (result d (RequestInOneTransaction rangeOrder pool queryParam) w = None ->
   count_calls is_commit
     (trace d (RequestInOneTransaction rangeOrder pool queryParam) w) = 1 /\
   statements (trace d (RequestInOneTransaction rangeOrder pool queryParam) w)
     = map asOneArgument (rangeOrder queryParam)) /\
  (count_calls is_rollback
     (trace d (RequestInOneTransaction rangeOrder pool queryParam) w) = 1 ->
   exists cause : error,
     result d (RequestInOneTransaction rangeOrder pool queryParam) w =
       Some (ErrorfW "failed to execute query" cause)) /\
  (count_calls is_commit
     (trace d (RequestInOneTransaction rangeOrder pool queryParam) w) = 0 ->
   result d (RequestInOneTransaction rangeOrder pool queryParam) w <> None).
Proof.
  pose proof (RequestInOneTransaction_protocol d w rangeOrder pool queryParam)
    as H. cbv zeta in H.
  destruct H as (Hbegin & ran & rest & Horder & Hst & Hres).
  rewrite Hst, Horder, length_map, length_app.
  destruct (result d (RequestInOneTransaction rangeOrder pool queryParam) w)
    as [err |].
  - destruct Hres as [(cause & -> & Hran & Hc & Hr)
                     | [(cause & -> & Hran & Hc & Hr)
                       | (cause & -> & Hrest & Hc & Hr)]];
      rewrite Hc, Hr;
      (split; [assumption |]); (split; [lia |]); (split; [lia |]);
      (split; [discriminate |]); (split; [| discriminate]);
      intros Hone; try discriminate Hone; eauto.
  - destruct Hres as (-> & Hc & Hr). rewrite Hc, Hr, app_nil_r.
    split; [assumption |]. split; [lia |]. split; [lia |].
    split; [intros _; split; reflexivity |].
    split; discriminate.
Qed.

Lemma RequestInOneTransaction_commit_or_rollback_witness :
  count_calls is_commit
    (trace pgx (RequestInOneTransaction map_to_list 0%nat
                  {[ "DELETE FROM t WHERE id = ANY($1)" := [VInt 1; VInt 2] ]})
       (database [])) = 1 /\
  statements
    (trace pgx (RequestInOneTransaction map_to_list 0%nat
                  {[ "DELETE FROM t WHERE id = ANY($1)" := [VInt 1; VInt 2] ]})
       (database []))
  = map asOneArgument
      (map_to_list
         {[ "DELETE FROM t WHERE id = ANY($1)" := [VInt 1; VInt 2] ]}).
Proof.
  apply (RequestInOneTransaction_commit_or_rollback pgx (database [])
           map_to_list 0%nat
           {[ "DELETE FROM t WHERE id = ANY($1)" := [VInt 1; VInt 2] ]}).
  vm_compute. reflexivity.
Defined.

(** X2.  When [pool.Begin] fails, [RequestInOneTransaction] returns its
    error wrapped twice, once by [beginTransaction] and once by itself,
    with the same context; [Begin] is the only call that reaches the
    driver: no statement, no commit, no rollback. *)
Theorem RequestInOneTransaction_begin_failure {T W} (d : Driver T W) (w : W)
    (rangeOrder : gmap string (list any) -> list (string * list any))
    (pool : Pool) (queryParam : gmap string (list any))
    (cause : error) (w2 : W) :
  answer d (pool_Begin pool) (snd (answer d time_Now w)) = (inr cause, w2) ->
  result d (RequestInOneTransaction rangeOrder pool queryParam) w =
    Some (ErrorfW "failed to begin transaction"
            (ErrorfW "failed to begin transaction" cause)) /\
  driver_calls (trace d (RequestInOneTransaction rangeOrder pool queryParam) w)
    = [Ev (pool_Begin pool) (inr cause)].
Proof.
  intros Hbegin.
  unfold result, trace, RequestInOneTransaction, beginTransaction.
  cbn -[execStatements].
  destruct (answer d time_Now w) as [start w1]. cbn in Hbegin.
  rewrite Hbegin. cbn. repeat (next_answer; cbn). split; reflexivity.
Qed.

Lemma RequestInOneTransaction_begin_failure_witness :
  answer pgx_down (pool_Begin 0%nat)
    (snd (answer pgx_down time_Now (database []))) =
    (inr (ExternErr "connection refused"), tick (database [])) /\
  result pgx_down
    (RequestInOneTransaction map_to_list 0%nat
       {[ "DELETE FROM t" := [] ]}) (database []) =
    Some (ErrorfW "failed to begin transaction"
            (ErrorfW "failed to begin transaction"
               (ExternErr "connection refused"))) /\
  driver_calls
    (trace pgx_down
       (RequestInOneTransaction map_to_list 0%nat
          {[ "DELETE FROM t" := [] ]}) (database []))
    = [Ev (pool_Begin 0%nat) (inr (ExternErr "connection refused"))].
Proof.
  split; [reflexivity |].
  apply (RequestInOneTransaction_begin_failure pgx_down (database [])
           map_to_list 0%nat {[ "DELETE FROM t" := [] ]}
           (ExternErr "connection refused") (tick (database []))).
  reflexivity.
Defined.

(** X3.  Whatever order [range] picks, a call that returns no error has
    executed every entry of the map exactly once: the statements sent
    are a permutation of the entries, as many as the map has keys, and
    no text twice. *)
Theorem RequestInOneTransaction_success_runs_every_entry {T W}
    (d : Driver T W) (w : W)
    (rangeOrder : gmap string (list any) -> list (string * list any))
    (pool : Pool) (queryParam : gmap string (list any)) :
  rangeOrder queryParam ≡ₚ map_to_list queryParam ->
  result d (RequestInOneTransaction rangeOrder pool queryParam) w = None ->
  statements (trace d (RequestInOneTransaction rangeOrder pool queryParam) w)
    ≡ₚ map asOneArgument (map_to_list queryParam) /\
  length (statements
            (trace d (RequestInOneTransaction rangeOrder pool queryParam) w))
    = size queryParam /\
  NoDup (map fst
           (statements
              (trace d (RequestInOneTransaction rangeOrder pool queryParam) w))).
Proof.
  intros Hperm Hnone.
  pose proof (RequestInOneTransaction_protocol d w rangeOrder pool queryParam)
    as H. cbv zeta in H.
  destruct H as (_ & ran & rest & Horder & Hst & Hres).
  rewrite Hnone in Hres. destruct Hres as (-> & _).
  rewrite app_nil_r in Horder. subst ran. rewrite Hst.
  split; [| split].
  - now apply Permutation_map.
  - rewrite length_map, Hperm. apply length_map_to_list.
  - rewrite map_map. cbn.
    rewrite Hperm. apply NoDup_fst_map_to_list.
Qed.

Lemma RequestInOneTransaction_success_witness :
  statements
    (trace pgx (RequestInOneTransaction map_to_list 0%nat
                  {[ "DELETE FROM t WHERE id = ANY($1)" := [VInt 1; VInt 2] ]})
       (database []))
    ≡ₚ map asOneArgument
         (map_to_list
            {[ "DELETE FROM t WHERE id = ANY($1)" := [VInt 1; VInt 2] ]}).
Proof.
  apply (RequestInOneTransaction_success_runs_every_entry pgx (database [])
           map_to_list 0%nat
           {[ "DELETE FROM t WHERE id = ANY($1)" := [VInt 1; VInt 2] ]}).
  - reflexivity.
  - vm_compute. reflexivity.
Defined.

(** X4.  An empty map still opens a transaction: no statement is sent
    and nothing is rolled back, and the call either returns no error,
    having committed the empty transaction, or returns the wrapped
    error of [Begin] or of [Commit]; it cannot fail on a statement. *)
Theorem RequestInOneTransaction_empty_map {T W} (d : Driver T W) (w : W)
    (rangeOrder : gmap string (list any) -> list (string * list any))
    (pool : Pool) :
  rangeOrder ∅ ≡ₚ map_to_list (∅ : gmap string (list any)) ->
  statements (trace d (RequestInOneTransaction rangeOrder pool ∅) w) = [] /\
  count_calls is_rollback
    (trace d (RequestInOneTransaction rangeOrder pool ∅) w) = 0 /\
  (result d (RequestInOneTransaction rangeOrder pool ∅) w = None /\
   count_calls is_commit
     (trace d (RequestInOneTransaction rangeOrder pool ∅) w) = 1
   \/
   (exists cause : error,
      result d (RequestInOneTransaction rangeOrder pool ∅) w =
        Some (ErrorfW "failed to begin transaction"
                (ErrorfW "failed to begin transaction" cause)) /\
      count_calls is_commit
        (trace d (RequestInOneTransaction rangeOrder pool ∅) w) = 0)
   \/
   (exists cause : error,
      result d (RequestInOneTransaction rangeOrder pool ∅) w =
        Some (ErrorfW "failed to commit transaction" cause) /\
      count_calls is_commit
        (trace d (RequestInOneTransaction rangeOrder pool ∅) w) = 1)).
Proof.
  intros Hperm. rewrite map_to_list_empty in Hperm.
  apply Permutation_nil_r in Hperm.
  pose proof (RequestInOneTransaction_protocol d w rangeOrder pool ∅) as H.
  cbv zeta in H.
  destruct H as (_ & ran & rest & Horder & Hst & Hres).
  rewrite Hperm in Horder. symmetry in Horder.
  apply app_eq_nil in Horder. destruct Horder as [-> ->].
  rewrite Hst.
  destruct (result d (RequestInOneTransaction rangeOrder pool ∅) w) as [err |].
  - destruct Hres as [(cause & -> & _ & Hc & Hr)
                     | [(cause & -> & Hran & _)
                       | (cause & -> & _ & Hc & Hr)]].
    + repeat split; [assumption |]. right; left. eauto.
    + contradiction.
    + repeat split; [assumption |]. right; right. eauto.
  - destruct Hres as (_ & Hc & Hr). repeat split; [assumption |]. now left.
Qed.

Lemma RequestInOneTransaction_empty_map_witness :
  statements
    (trace pgx (RequestInOneTransaction map_to_list 0%nat ∅) (database []))
  = [].
Proof.
  apply (RequestInOneTransaction_empty_map pgx (database []) map_to_list 0%nat).
  reflexivity.
Defined.

Lemma execStatements_within_tx {T W} (d : Driver T W) (tx : Tx)
    (kvs : list (string * list any)) (w : W) :
  forallb (within_tx tx) (trace d (execStatements tx kvs) w) = true.
Proof.
  revert w. induction kvs as [| [k v] kvs IH]; intros w; [reflexivity |].
  unfold trace in *. cbn. next_answer. destruct x as [err |].
  - cbn. next_answer. cbn. now rewrite Nat.eqb_refl.
  - specialize (IH w0).
    destruct (run d (execStatements tx kvs) w0) as [[r w1] tr].
    cbn in *. now rewrite Nat.eqb_refl.
Qed.

Lemma execStatements_no_log {T W} (d : Driver T W) (tx : Tx)
    (kvs : list (string * list any)) (w : W) :
  log_lines (trace d (execStatements tx kvs) w) = [].
Proof.
  revert w. induction kvs as [| [k v] kvs IH]; intros w; [reflexivity |].
  unfold trace in *. cbn. next_answer. destruct x as [err |].
  - cbn. next_answer. reflexivity.
  - specialize (IH w0).
    destruct (run d (execStatements tx kvs) w0) as [[r w1] tr].
    cbn in *. assumption.
Qed.

(** X5.  Once [Begin] has returned a transaction, every further call
    [RequestInOneTransaction] makes to the driver is a call on that
    transaction: each statement, the rollback and the commit run
    inside it, and nothing is executed on the pool directly or on
    another transaction. *)
Theorem RequestInOneTransaction_stays_in_transaction {T W} (d : Driver T W)
    (w : W) (rangeOrder : gmap string (list any) -> list (string * list any))
    (pool : Pool) (queryParam : gmap string (list any)) (tx : Tx) (w2 : W) :
  answer d (pool_Begin pool) (snd (answer d time_Now w)) = (inl tx, w2) ->
  forallb (within_tx tx)
    (trace d (RequestInOneTransaction rangeOrder pool queryParam) w) = true.
Proof.
  intros Hbegin.
  unfold trace, RequestInOneTransaction, beginTransaction.
  cbn -[execStatements].
  destruct (answer d time_Now w) as [start w1]. cbn in Hbegin.
  rewrite Hbegin. cbn -[execStatements]. rewrite !run_bind.
  pose proof (execStatements_within_tx d tx (rangeOrder queryParam) w2) as Hin.
  unfold trace in Hin.
  destruct (run d (execStatements tx (rangeOrder queryParam)) w2)
    as [[failed w3] inner].
  cbn -[forallb] in *.
  destruct failed as [err |]; cbn -[forallb];
    repeat (first [next_answer | next_branch]; cbn -[forallb]);
    cbn [forallb within_tx andb]; rewrite !forallb_app, Hin; cbn;
    rewrite ?Nat.eqb_refl; reflexivity.
Qed.

Lemma RequestInOneTransaction_stays_in_transaction_witness :
  forallb (within_tx 1%nat)
    (trace pgx (RequestInOneTransaction map_to_list 0%nat
                  {[ "DELETE FROM t WHERE id = ANY($1)" := [VInt 1; VInt 2] ]})
       (database [])) = true.
Proof.
  apply (RequestInOneTransaction_stays_in_transaction pgx (database [])
           map_to_list 0%nat
           {[ "DELETE FROM t WHERE id = ANY($1)" := [VInt 1; VInt 2] ]}
           1%nat (tick (database []))).
  reflexivity.
Defined.

(** ** Queries *)

(** X6.  [QueryStructs], [QuerySimple] and [QueryOneStruct] close every
    result set they obtain, exactly once and after decoding, whether
    decoding succeeded or not, and return what the decoder returned
    ([CollectRows] with [RowToStructByName] or [RowTo], [CollectOneRow]
    with [RowToStructByName]).  When [pool.Query] fails they make no
    further call to the driver, there being nothing to close, and
    return the driver's error unwrapped with an empty (zero) value. *)
Theorem queries_close_their_rows {T W} (zeroT : T) (d : Driver T W) (w : W)
    (pool : Pool) (sql : string) (args : list any) :
  exists (start : Time) (w1 : W) (q : Rows + error) (w2 : W),
    answer d time_Now w = (start, w1) /\
    answer d (pool_Query pool sql args) w1 = (q, w2) /\
    match q with
    | inr err =>
        result d (QueryStructs pool sql args) w = ([], Some err) /\
        driver_calls (trace d (QueryStructs pool sql args) w) =
          [Ev (pool_Query pool sql args) (inr err)] /\
        result d (QuerySimple pool sql args) w = ([], Some err) /\
        driver_calls (trace d (QuerySimple pool sql args) w) =
          [Ev (pool_Query pool sql args) (inr err)] /\
        result d (QueryOneStruct zeroT pool sql args) w = (zeroT, Some err) /\
        driver_calls (trace d (QueryOneStruct zeroT pool sql args) w) =
          [Ev (pool_Query pool sql args) (inr err)]
    | inl rows =>
        driver_calls (trace d (QueryStructs pool sql args) w) =
          [Ev (pool_Query pool sql args) (inl rows);
           Ev (pgx_CollectRows rows RowToStructByName)
              (result d (QueryStructs pool sql args) w);
           Ev (rows_Close rows) tt] /\
        driver_calls (trace d (QuerySimple pool sql args) w) =
          [Ev (pool_Query pool sql args) (inl rows);
           Ev (pgx_CollectRows rows RowTo)
              (result d (QuerySimple pool sql args) w);
           Ev (rows_Close rows) tt] /\
        driver_calls (trace d (QueryOneStruct zeroT pool sql args) w) =
          [Ev (pool_Query pool sql args) (inl rows);
           Ev (pgx_CollectOneRow rows RowToStructByName)
              (result d (QueryOneStruct zeroT pool sql args) w);
           Ev (rows_Close rows) tt]
    end.
Proof.
  destruct (answer d time_Now w) as [start w1] eqn:Enow.
  destruct (answer d (pool_Query pool sql args) w1) as [q w2] eqn:Equery.
  exists start, w1, q, w2.
  do 2 (split; [first [reflexivity | assumption] |]).
  unfold result, trace, QueryStructs, QuerySimple, QueryOneStruct.
  cbn. rewrite Enow. cbn. rewrite Equery.
  destruct q as [rows | err]; cbn;
    repeat (next_answer; cbn);
    repeat match goal with u : unit |- _ => destruct u end;
    repeat split; reflexivity.
Qed.

(** X7.  Each of the seven operations of the Query Executor sends at
    most one statement per call, with the caller's text unchanged, and
    never begins a transaction: nothing is retried and nothing is
    rewritten. *)
Theorem executor_sends_one_statement {T W} (zeroT : T) (d : Driver T W)
    (pool : Pool) (c : ExecutorCall) (w : W) :
  length (statements (executor_trace zeroT d pool c w)) <= 1 /\
  Forall (fun s => fst s = executor_sql c)
         (statements (executor_trace zeroT d pool c w)) /\
  count_calls is_begin (executor_trace zeroT d pool c w) = 0.
Proof.
  destruct c; unfold executor_trace, executor_sql; run_folded;
    repeat split; try lia; repeat constructor.
Qed.

(** ** Logging of the batch helpers *)

Lemma last_two {A} (l : list A) (a b : A) : last (l ++ [a; b]) = Some b.
Proof.
  change [a; b] with ([a] ++ [b]). rewrite app_assoc. apply last_snoc.
Qed.

(** X8.  [BulkInsert] and [RequestInOneTransaction] emit exactly one
    log line per call, as their last call, whatever happened before
    (no rows, a failed [Begin], a failed statement, a failed commit).
    The line of [BulkInsert] names the table, and that of
    [RequestInOneTransaction] only the elapsed time; neither carries
    the text of a statement. *)
Theorem batch_helpers_log_once {T W} (d : Driver T W) (w : W) (pool : Pool) :
  (forall (tableName : string) (columns : list string)
          (values : list (list any)),
     exists elapsed : Duration,
       log_lines (trace d (BulkInsert pool tableName columns values) w) =
         [("Executed bulk insert to the%s in %s",
           [VString tableName; VDuration elapsed])] /\
       last (trace d (BulkInsert pool tableName columns values) w) =
         Some (Ev (lg_Infof "Executed bulk insert to the%s in %s"
                     [VString tableName; VDuration elapsed]) tt)) /\
  (forall (rangeOrder : gmap string (list any) -> list (string * list any))
          (queryParam : gmap string (list any)),
     exists elapsed : Duration,
       log_lines (trace d (RequestInOneTransaction rangeOrder pool queryParam) w)
         = [("Executed requests is one tx in %s", [VDuration elapsed])] /\
       last (trace d (RequestInOneTransaction rangeOrder pool queryParam) w) =
         Some (Ev (lg_Infof "Executed requests is one tx in %s"
                     [VDuration elapsed]) tt)).
Proof.
  split.
  - intros tableName columns values. unfold trace, BulkInsert.
    destruct (len values =? 0)%nat;
      [| destruct (bulkLoop values 0 (replicate (len values) "") [])
           as [valueStrings valueArgs]];
      run_folded;
      repeat match goal with u : unit |- _ => destruct u end;
      eexists; split; reflexivity.
  - intros rangeOrder queryParam.
    unfold trace, RequestInOneTransaction, beginTransaction.
    cbn -[execStatements]. next_answer. next_answer.
    destruct x0 as [tx | cause]; cbn -[execStatements].
    + rewrite !run_bind.
      pose proof (execStatements_no_log d tx (rangeOrder queryParam) w1)
        as Hlog.
      unfold trace in Hlog.
      destruct (run d (execStatements tx (rangeOrder queryParam)) w1)
        as [[failed w2] inner].
      cbn -[log_lines last] in *.
      destruct failed as [err |]; cbn -[log_lines last];
        repeat (first [next_answer | next_branch]; cbn -[log_lines last]);
        repeat match goal with u : unit |- _ => destruct u end;
        eexists;
        (split;
         [unfold log_lines in *; cbn; rewrite !omap_app, Hlog; reflexivity
         | rewrite !last_cons, last_two; reflexivity]).
    + repeat (next_answer; cbn).
      repeat match goal with u : unit |- _ => destruct u end.
      eexists; split; reflexivity.
Qed.

(** ** Parameters and arguments *)

Lemma list_max_seq (n : nat) : list_max (seq 1 n) = n.
Proof.
  induction n as [| n IH]; [reflexivity |].
  rewrite seq_S, list_max_app, IH. cbn. lia.
Qed.

Lemma length_concat_rectangular {A} (rows : list (list A)) (n : nat) :
  Forall (fun row => length row = n) rows ->
  length (concat rows) = length rows * n.
Proof.
  induction 1 as [| row rows Hrow _ IH]; [reflexivity |].
  cbn. rewrite length_app, IH, Hrow. reflexivity.
Qed.

Lemma placeholders_paginated (sql : string) (a b : nat) :
  placeholders (sql +:+ " LIMIT $" +:+ fmt_d a +:+ " OFFSET $" +:+ fmt_d b) =
  placeholders sql ++ [a; b].
Proof.
  unfold placeholders.
  change (" LIMIT $" +:+ ?r) with (String " " ("LIMIT $" +:+ r)).
  rewrite scan_app_sep by reflexivity.
  f_equal. apply placeholders_limit_offset.
Qed.

Lemma placeholders_with (cte query : string) :
  placeholders ("WITH " +:+ cte +:+ " " +:+ query) =
  placeholders cte ++ placeholders query.
Proof.
  unfold placeholders. simpl.
  change (" " +:+ query) with (String " " query).
  now rewrite scan_app_sep by reflexivity.
Qed.

(** X9.  When the table and column names carry no placeholder, the one
    statement [BulkInsert] sends for a non-empty row set has exactly as
    many parameters (its highest [$n]) as arguments, so the driver's
    argument count check cannot fail, also on ragged rows; and when
    every row has as many values as there are columns, that number is
    [len(values) * len(columns)], the capacity the code reserves. *)
Theorem BulkInsert_parameters_equal_arguments {T W} (d : Driver T W) (w : W)
    (pool : Pool) (tableName : string) (columns : list string)
    (values : list (list any)) :
  values <> [] ->
  placeholders tableName = [] ->
  placeholders (Join columns ",") = [] ->
  exists query : string,
    statements (trace d (BulkInsert pool tableName columns values) w) =
      [(query, concat values)] /\
    list_max (placeholders query) = length (concat values) /\
    (Forall (fun row => length row = length columns) values ->
     length (concat values) = length values * length columns).
Proof.
  intros Hne Htable Hcolumns. unfold trace, BulkInsert.
  assert (Hlen : (len values =? 0)%nat = false)
    by (destruct values; [contradiction | reflexivity]).
  rewrite Hlen, bulkLoop_start.
  run_folded;
    (eexists; split; [reflexivity |]);
    rewrite placeholders_insert, Htable, Hcolumns, placeholders_values,
      concat_numbering;
    (split; [apply list_max_seq | apply length_concat_rectangular]).
Qed.

Lemma BulkInsert_parameters_witness :
  exists query : string,
    statements (trace pgx (BulkInsert 0%nat "t" ["a"; "b"]
                             [[VInt 1; VInt 2]; [VInt 3; VInt 4]])
                  (database [])) =
      [(query, concat [[VInt 1; VInt 2]; [VInt 3; VInt 4]])] /\
    list_max (placeholders query) =
      length (concat [[VInt 1; VInt 2]; [VInt 3; VInt 4]]) /\
    (Forall (fun row => length row = length ["a"; "b"])
            [[VInt 1; VInt 2]; [VInt 3; VInt 4]] ->
     length (concat [[VInt 1; VInt 2]; [VInt 3; VInt 4]]) =
       length [[VInt 1; VInt 2]; [VInt 3; VInt 4]] * length ["a"; "b"]).
Proof.
  apply (BulkInsert_parameters_equal_arguments pgx (database []) 0%nat
           "t" ["a"; "b"] [[VInt 1; VInt 2]; [VInt 3; VInt 4]]).
  - discriminate.
  - reflexivity.
  - reflexivity.
Defined.

(** X10.  [QueryWithPagination] keeps a statement consistent with its
    arguments: when the caller's text uses no placeholder above
    [len(args)], the text sent has exactly [len(args)+2] parameters,
    the number of arguments sent. *)
Theorem QueryWithPagination_parameters_equal_arguments {T W}
    (d : Driver T W) (w : W) (pool : Pool) (sql : string)
    (limit offset : Z) (args : list any) :
  list_max (placeholders sql) <= length args ->
  exists (query : string) (args' : list any),
    statements (trace d (QueryWithPagination pool sql limit offset args) w) =
      [(query, args')] /\
    list_max (placeholders query) = length args' /\
    length args' = length args + 2.
Proof.
  intros Hmax. run_folded;
    (eexists _, _; split; [reflexivity |]);
    unfold len; rewrite placeholders_paginated, list_max_app, length_app;
    cbn; lia.
Qed.

Lemma QueryWithPagination_parameters_witness :
  exists (query : string) (args' : list any),
    statements (trace pgx (QueryWithPagination 0%nat
                             "SELECT x FROM t WHERE y = $1" 10 20 [VInt 5])
                  (database [])) = [(query, args')] /\
    list_max (placeholders query) = length args' /\
    length args' = length [VInt 5] + 2.
Proof.
  apply (QueryWithPagination_parameters_equal_arguments pgx (database [])
           0%nat "SELECT x FROM t WHERE y = $1" 10 20 [VInt 5]).
  vm_compute. lia.
Defined.

(** X11.  [QueryWithCTE] sends one statement whose placeholders are
    those of the CTE body followed by those of the query: both parts
    are numbered against the one argument list, which is passed on
    unchanged. *)
Theorem QueryWithCTE_shares_the_arguments {T W} (d : Driver T W) (w : W)
    (pool : Pool) (cte query : string) (args : list any) :
  exists text : string,
    statements (trace d (QueryWithCTE pool cte query args) w) =
      [(text, args)] /\
    placeholders text = placeholders cte ++ placeholders query.
Proof.
  run_folded; (eexists; split; [reflexivity | apply placeholders_with]).
Qed.

(** ** NewDB *)

Lemma int32_range (x : Z) : (- 2 ^ 31 <= int32 x < 2 ^ 31)%Z.
Proof.
  unfold int32.
  pose proof (Z.mod_pos_bound (x + 2 ^ 31) (2 ^ 32) ltac:(lia)). lia.
Qed.

Lemma int32_congruent (x : Z) : ((x - int32 x) mod 2 ^ 32 = 0)%Z.
Proof.
  unfold int32.
  replace (x - ((x + 2 ^ 31) mod 2 ^ 32 - 2 ^ 31))%Z
    with (2 ^ 32 * ((x + 2 ^ 31) / 2 ^ 32))%Z.
  - rewrite Z.mul_comm. apply Z.mod_mul. lia.
  - pose proof (Z.div_mod (x + 2 ^ 31) (2 ^ 32) ltac:(lia)). lia.
Qed.

Lemma int32_multiple (x : Z) : (x mod 2 ^ 32 = 0)%Z -> int32 x = 0%Z.
Proof.
  intros H. unfold int32.
  rewrite <- Zplus_mod_idemp_l, H. reflexivity.
Qed.

(** X12.  When both optional fields are set, the pool is created with
    [MaxConns] equal to the low 32 bits of the caller's [MaxConn] read
    as a signed number: always within the 32-bit range and congruent
    to [MaxConn] modulo [2^32], so a value outside that range is not
    kept, and a non-zero multiple of [2^32] overrides [MaxConns] with
    zero.  The connect timeout is copied as it is.  At most one pool
    is created per call. *)
Theorem NewDB_MaxConns_keeps_32_bits {T W} (d : Driver T W) (w : W)
    (cfg : DBConfig) :
  MaxConn cfg <> 0%Z -> MaxConnTime cfg <> 0%Z ->
  length (created_configs (trace d (NewDB cfg) w)) <= 1 /\
  Forall (fun config =>
            MaxConns config = int32 (MaxConn cfg) /\
            ConnectTimeout config = MaxConnTime cfg /\
            (- 2 ^ 31 <= MaxConns config < 2 ^ 31)%Z /\
            ((MaxConn cfg - MaxConns config) mod 2 ^ 32 = 0)%Z /\
            ((MaxConn cfg mod 2 ^ 32 = 0)%Z -> MaxConns config = 0%Z))
         (created_configs (trace d (NewDB cfg) w)).
Proof.
  intros Hconn Htime. apply Z.eqb_neq in Hconn, Htime.
  unfold trace, NewDB. cbn -[connectionUrl int32].
  next_answer. destruct x as [config | err]; cbn -[connectionUrl int32].
  - rewrite Hconn, Htime. cbn -[connectionUrl int32].
    next_answer. destruct x; cbn -[connectionUrl int32];
      (split; [lia |]); (constructor; [| constructor]);
      cbn -[int32];
      (split; [reflexivity |]); (split; [reflexivity |]);
      (split; [apply int32_range |]);
      (split; [apply int32_congruent | apply int32_multiple]).
  - split; [lia | constructor].
Qed.

Lemma NewDB_MaxConns_witness :
  Forall (fun config => MaxConns config = 0%Z)
    (created_configs
       (trace pgx
          (NewDB {| Host := "localhost"; Port := "5432"; User := "app";
                    Password := "secret"; Db := "main"; SslMode := "disable";
                    MaxConn := 4294967296%Z; MaxConnTime := 5%Z |})
          (database []))).
Proof.
  pose proof (NewDB_MaxConns_keeps_32_bits pgx (database [])
                {| Host := "localhost"; Port := "5432"; User := "app";
                   Password := "secret"; Db := "main"; SslMode := "disable";
                   MaxConn := 4294967296%Z; MaxConnTime := 5%Z |}) as H.
  destruct H as [_ H]; [discriminate | discriminate |].
  eapply Forall_impl; [exact H |].
  intros config (_ & _ & _ & _ & Hzero). apply Hzero. reflexivity.
Defined.

Lemma length_append (a b : string) :
  String.length (a +:+ b) = String.length a + String.length b.
Proof. induction a as [| c a IH]; cbn; [reflexivity | now rewrite IH]. Qed.

(** X13.  [NewDB] splices the configuration fields into the connection
    string without quoting or escaping, so a field that contains a
    space and a key is indistinguishable from a further setting: a
    database name ending in [ sslmode=x] builds the same connection
    string, and makes [NewDB] behave the same on every driver, as that
    name without the ending and an SSL mode beginning with
    [x sslmode=]. *)
Theorem NewDB_does_not_quote_fields {T W} (d : Driver T W) (w : W)
    (cfg : DBConfig) (x s : string) :
  Db (withDbSsl cfg (Db cfg +:+ " sslmode=" +:+ x) s) <>
  Db (withDbSsl cfg (Db cfg) (x +:+ " sslmode=" +:+ s)) /\
  connectionUrl (withDbSsl cfg (Db cfg +:+ " sslmode=" +:+ x) s) =
  connectionUrl (withDbSsl cfg (Db cfg) (x +:+ " sslmode=" +:+ s)) /\
  run d (NewDB (withDbSsl cfg (Db cfg +:+ " sslmode=" +:+ x) s)) w =
  run d (NewDB (withDbSsl cfg (Db cfg) (x +:+ " sslmode=" +:+ s))) w.
Proof.
  assert (Hurl :
    connectionUrl (withDbSsl cfg (Db cfg +:+ " sslmode=" +:+ x) s) =
    connectionUrl (withDbSsl cfg (Db cfg) (x +:+ " sslmode=" +:+ s))).
  { unfold connectionUrl, withDbSsl. cbn -[String.append].
    rewrite !append_assoc. reflexivity. }
  split; [| split; [exact Hurl |]].
  - cbn -[String.append]. intros Heq.
    apply (f_equal String.length) in Heq.
    rewrite !length_append in Heq. cbn in Heq. lia.
  - unfold NewDB. rewrite Hurl. reflexivity.
Qed.

(** ** Which error the transaction helper returns *)

Lemma execStatements_answers {T W} (d : Driver T W) (tx : Tx)
    (kvs : list (string * list any)) (w : W) :
  exists n : nat,
    match result d (execStatements tx kvs) w with
    | None =>
        exec_answers (trace d (execStatements tx kvs) w) = replicate n None
    | Some err =>
        exists cause : error,
          err = ErrorfW "failed to execute query" cause /\
          exec_answers (trace d (execStatements tx kvs) w) =
            replicate n None ++ [Some cause]
    end.
Proof.
  revert w. induction kvs as [| [k v] kvs IH]; intros w.
  - exists 0. reflexivity.
  - unfold result, trace in *. cbn. next_answer. destruct x as [err |].
    + cbn. next_answer. exists 0, err. split; reflexivity.
    + destruct (IH w0) as [n Hn].
      destruct (run d (execStatements tx kvs) w0) as [[r w1] tr].
      cbn in *. exists (S n). destruct r as [err |].
      * destruct Hn as (cause & -> & Hn). exists cause.
        split; [reflexivity |]. unfold exec_answers in *. cbn. now rewrite Hn.
      * unfold exec_answers in *. cbn. now rewrite Hn.
Qed.

(** X14.  [RequestInOneTransaction] stops at the first statement the
    driver refuses: every statement sent before it was accepted, it is
    the last one sent, and the error returned wraps the error of that
    very statement; what [Rollback] answers plays no part.  When no
    statement was refused, the result is no error or the wrapped error
    of [Begin] or [Commit]. *)
Theorem RequestInOneTransaction_returns_first_failure {T W} (d : Driver T W)
    (w : W) (rangeOrder : gmap string (list any) -> list (string * list any))
    (pool : Pool) (queryParam : gmap string (list any)) :
  exists n : nat,
    (exists cause : error,
       exec_answers
         (trace d (RequestInOneTransaction rangeOrder pool queryParam) w) =
         replicate n None ++ [Some cause] /\
       result d (RequestInOneTransaction rangeOrder pool queryParam) w =
         Some (ErrorfW "failed to execute query" cause))
    \/
    (exec_answers
       (trace d (RequestInOneTransaction rangeOrder pool queryParam) w) =
       replicate n None /\
     (result d (RequestInOneTransaction rangeOrder pool queryParam) w = None
      \/ (exists cause : error,
            result d (RequestInOneTransaction rangeOrder pool queryParam) w =
              Some (ErrorfW "failed to begin transaction"
                      (ErrorfW "failed to begin transaction" cause)))
      \/ (exists cause : error,
            result d (RequestInOneTransaction rangeOrder pool queryParam) w =
              Some (ErrorfW "failed to commit transaction" cause)))).
Proof.
  unfold result, trace, RequestInOneTransaction, beginTransaction.
  cbn -[execStatements]. next_answer. next_answer.
  destruct x0 as [tx | cause]; cbn -[execStatements].
  - rewrite !run_bind.
    destruct (execStatements_answers d tx (rangeOrder queryParam) w1)
      as [n Hn].
    unfold result, trace in Hn.
    destruct (run d (execStatements tx (rangeOrder queryParam)) w1)
      as [[failed w2] inner].
    cbn -[exec_answers] in *. exists n.
    destruct failed as [err |]; cbn -[exec_answers];
      repeat (first [next_answer | next_branch]; cbn -[exec_answers]).
    + destruct Hn as (cause & -> & Hn). left. exists cause.
      split; [| reflexivity].
      unfold exec_answers in *. cbn. rewrite !omap_app, Hn. cbn.
      now rewrite !app_nil_r.
    + right. split; [| right; right; eauto].
      unfold exec_answers in *. cbn. rewrite !omap_app, Hn. cbn.
      now rewrite !app_nil_r.
    + right. split; [| now left].
      unfold exec_answers in *. cbn. rewrite !omap_app, Hn. cbn.
      now rewrite !app_nil_r.
  - repeat (next_answer; cbn -[exec_answers]).
    exists 0. right. split; [reflexivity | right; left; eauto].
Qed.
